(** * A deterministic single-tape Turing machine simulator (main.py)

    Shallow embedding of the class [TuringMachine] of [main.py] and
    proofs about its tape operations, its step function [next] and its
    constructor; then of the driver [main]: the transition function it
    builds from the specification, its loop, the lines it prints and
    its final message.

    Modelling conventions:
    - Python [str] is [string]; [Symbol] and [State] are both [str].
    - Python [int] is [Z].
    - [set[State]] is [gset State]; the transition function, a dict of
      dicts, is a [gmap] of [gmap]s.
    - A method that mutates [self] is a function from the object before
      the call to the object after it; a method that can raise returns
      a [result]. *)

From stdpp Require Import base numbers strings list gmap.

Open Scope Z_scope.

(** ** Python runtime: exceptions, list indexing *)

(** Type definitions of the module (lines 10-15). *)
Abbreviation Symbol := string (only parsing).
Abbreviation State := string (only parsing).
Abbreviation Direction := bool (only parsing).
Abbreviation Result := bool (only parsing).
Abbreviation TransitionFunction :=
  (gmap string (gmap string (string * string * bool))) (only parsing).

(** Constant definitions of the module (lines 18-22). *)
Definition RIGHT : Direction := false.
Definition LEFT : Direction := true.
Definition BLANK : Symbol := EmptyString.
Definition ACCEPT : Result := true.
Definition REJECT : Result := false.

(** What a [ValueError] raised by the constructor reports: the f-string
    of line 47 embeds the initial state, the one of line 52 embeds the
    set [accepting_states - states]. *)
Inductive ValueErrorInfo : Type :=
| InitialStateNotInStates (initial_state : State)
| AcceptingContainsInvalid (invalid_states : gset State).

Inductive exn : Type :=
| ValueError (info : ValueErrorInfo)
| IndexError
| AttributeError.

Inductive result (A : Type) : Type :=
| Ok (a : A)
| Raise (e : exn).
Arguments Ok {A} a.
Arguments Raise {A} e.

(** Sequencing of calls that may raise: the first exception aborts the
    rest ([x ← c; k] below is this bind). *)
#[global] Instance result_bind : MBind result := λ A B k c,
  match c with
  | Ok a => k a
  | Raise e => Raise e
  end.

(** Position denoted by a Python list index: [0 .. len-1] directly,
    [-len .. -1] counted from the end, anything else is out of range. *)
Definition py_index {A} (l : list A) (i : Z) : option nat :=
  let n := Z.of_nat (length l) in
  if decide (0 ≤ i < n) then Some (Z.to_nat i)
  else if decide (- n ≤ i < 0) then Some (Z.to_nat (n + i))
  else None.

(** [l[i]] *)
Definition py_getitem {A} (l : list A) (i : Z) : result A :=
  match py_index l i with
  | Some k => match l !! k with Some x => Ok x | None => Raise IndexError end
  | None => Raise IndexError
  end.

(** [l[i] = x] *)
Definition py_setitem {A} (l : list A) (i : Z) (x : A) : result (list A) :=
  match py_index l i with
  | Some k => Ok (<[k:=x]> l)
  | None => Raise IndexError
  end.

(** The argument of [input_tape], of type [list[Symbol] | str]. *)
Inductive TapeArg : Type :=
| TapeList (l : list Symbol)
| TapeStr (s : string).

(** Iterating a [str] yields its characters as one-character strings. *)
Fixpoint str_chars (s : string) : list Symbol :=
  match s with
  | EmptyString => []
  | String c s' => String c EmptyString :: str_chars s'
  end.

(** Truth value of a list or a string: non-empty. *)
Definition py_truthy (tape : TapeArg) : bool :=
  match tape with
  | TapeList [] => false
  | TapeList (_ :: _) => true
  | TapeStr EmptyString => false
  | TapeStr (String _ _) => true
  end.

(** [list(tape)] *)
Definition py_list (tape : TapeArg) : list Symbol :=
  match tape with
  | TapeList l => l
  | TapeStr s => str_chars s
  end.

(** [len(tape)] *)
Definition py_len (tape : TapeArg) : Z :=
  match tape with
  | TapeList l => Z.of_nat (length l)
  | TapeStr s => Z.of_nat (String.length s)
  end.

(** ** The class [TuringMachine] *)

(** The attributes [_tape], [_tape_length] and [_index] do not exist on
    an object until [input_tape] assigns the three of them together;
    they are kept as one optional group, and a method that touches
    them before that raises [AttributeError]. *)
Record Tape : Type := mkTape {
  _tape : list Symbol;
  _tape_length : Z;
  _index : Z
}.

Record TuringMachine : Type := mkTM {
  _states : gset State;
  _accepting : gset State;
  _current_state : State;
  _delta : TransitionFunction;
  tape_attrs : option Tape
}.

Definition set_tape_attrs (self : TuringMachine) (t : Tape) : TuringMachine :=
  mkTM (_states self) (_accepting self) (_current_state self) (_delta self)
       (Some t).

Definition set_current_state (self : TuringMachine) (q : State)
  : TuringMachine :=
  mkTM (_states self) (_accepting self) q (_delta self) (tape_attrs self).

Definition get_tape_attrs (self : TuringMachine) : result Tape :=
  match tape_attrs self with
  | Some t => Ok t
  | None => Raise AttributeError
  end.

(** [__init__] (lines 39-57). *)
Definition __init__ (states : gset State) (initial_state : State)
    (delta : TransitionFunction) (accepting_states : gset State)
  : result TuringMachine :=
  if decide (initial_state ∉ states) then
    Raise (ValueError (InitialStateNotInStates initial_state))
  else if negb (bool_decide (accepting_states ⊆ states)) then
    let invalid_states := accepting_states ∖ states in
    Raise (ValueError (AcceptingContainsInvalid invalid_states))
  else
    Ok {| _states := states;
          _current_state := initial_state;
          _delta := delta;
          _accepting := accepting_states;
          tape_attrs := None |}.

(** [input_tape] (lines 59-64). *)
Definition input_tape (tape : TapeArg) (self : TuringMachine)
  : TuringMachine :=
  let tape := if py_truthy tape then tape else TapeList [BLANK] in
  set_tape_attrs self
    {| _tape := py_list tape; _tape_length := py_len tape; _index := 0 |}.

(** [go_right] (lines 66-74). *)
Definition go_right (self : TuringMachine) : result TuringMachine :=
  t ← get_tape_attrs self;
  let t :=
    if decide (_index t = _tape_length t - 1) then
      {| _tape := _tape t ++ [BLANK];
         _tape_length := _tape_length t + 1;
         _index := _index t |}
    else t in
  Ok (set_tape_attrs self
        {| _tape := _tape t;
           _tape_length := _tape_length t;
           _index := _index t + 1 |}).

(** [go_left] (lines 76-85). *)
Definition go_left (self : TuringMachine) : result TuringMachine :=
  t ← get_tape_attrs self;
  if decide (_index t = 0) then
    Ok (set_tape_attrs self
          {| _tape := [BLANK] ++ _tape t;
             _tape_length := _tape_length t + 1;
             _index := _index t |})
  else
    Ok (set_tape_attrs self
          {| _tape := _tape t;
             _tape_length := _tape_length t;
             _index := _index t - 1 |}).

(** [read] (lines 87-88). *)
Definition read (self : TuringMachine) : result Symbol :=
  t ← get_tape_attrs self;
  py_getitem (_tape t) (_index t).

(** [write] (lines 90-91). *)
Definition write (symbol : Symbol) (self : TuringMachine)
  : result TuringMachine :=
  t ← get_tape_attrs self;
  tape' ← py_setitem (_tape t) (_index t) symbol;
  Ok (set_tape_attrs self
        {| _tape := tape';
           _tape_length := _tape_length t;
           _index := _index t |}).

(** [next] (lines 93-110).  The value returned is [Some ACCEPT],
    [Some REJECT] or [None] (the step neither accepted nor rejected). *)
Definition next (self : TuringMachine)
  : result (TuringMachine * option Result) :=
  symbol ← read self;
  let state := _current_state self in
  match _delta self !! state with
  | Some row =>
      match row !! symbol with
      | Some (new_symbol, new_state, direction) =>
          self ← write new_symbol self;
          let self := set_current_state self new_state in
          self ← (if decide (direction = RIGHT) then go_right self
                  else go_left self);
          if decide (new_state ∈ _accepting self) then
            Ok (self, Some ACCEPT)
          else Ok (self, None)
      | None => Ok (self, Some REJECT)
      end
  | None => Ok (self, Some REJECT)
  end.

(** ** Repeated stepping *)

(** [n] successive calls of [next] on the same object; the object after
    the last call. *)
Fixpoint steps (n : nat) (self : TuringMachine) : result TuringMachine :=
  match n with
  | O => Ok self
  | S n' => '(self', _) ← next self; steps n' self'
  end.

(** [n] successive calls of [next]: the object after each call (with its
    current state, tape and head) and the value the call returned. *)
Fixpoint trace (n : nat) (self : TuringMachine)
  : result (list (TuringMachine * option Result)) :=
  match n with
  | O => Ok []
  | S n' =>
      '(self', r) ← next self;
      rest ← trace n' self';
      Ok ((self', r) :: rest)
  end.

(** A move of the head, as a caller of the tape operations issues it. *)
Inductive Move : Type := MoveLeft | MoveRight.

Definition do_move (mv : Move) (self : TuringMachine) : result TuringMachine :=
  match mv with
  | MoveLeft => go_left self
  | MoveRight => go_right self
  end.

Fixpoint do_moves (mvs : list Move) (self : TuringMachine)
  : result TuringMachine :=
  match mvs with
  | [] => Ok self
  | mv :: mvs' => self' ← do_move mv self; do_moves mvs' self'
  end.

(** ** Invariants of the tape attributes *)

(** The counter [_tape_length] is the number of cells of [_tape]. *)
Definition length_ok (t : Tape) : Prop :=
  _tape_length t = Z.of_nat (length (_tape t)).

(** The head is on a cell: [0 <= _index < _tape_length]. *)
Definition head_ok (t : Tape) : Prop :=
  0 ≤ _index t < _tape_length t.

(** ** The machines of the scenarios *)

Definition q0 : State := "q0".
Definition q1 : State := "q1".

(** Scenario A: one state, accepting, no transitions. *)
Definition scenarioA : result TuringMachine :=
  __init__ {[q0]} q0 ∅ {[q0]}.

(** Scenario B: [q0 --1/1,R--> q1], [q1] accepting. *)
Definition deltaB : TransitionFunction :=
  {[ q0 := {[ "1" := ("1", q1, RIGHT) ]} ]}.

Definition scenarioB : result TuringMachine :=
  __init__ {[q0; q1]} q0 deltaB {[q1]}.

(** Scenario B with one more transition, out of the accepting state:
    [q1 --BLANK/x,L--> q0]. *)
Definition deltaB' : TransitionFunction :=
  {[ q0 := {[ "1" := ("1", q1, RIGHT) ]};
     q1 := {[ BLANK := ("x", q0, LEFT) ]} ]}.

Definition scenarioB' : result TuringMachine :=
  __init__ {[q0; q1]} q0 deltaB' {[q1]}.

(** The objects the three constructions return. *)
Definition machineA : TuringMachine := mkTM {[q0]} {[q0]} q0 ∅ None.
Definition machineB : TuringMachine := mkTM {[q0; q1]} {[q1]} q0 deltaB None.
Definition machineB' : TuringMachine :=
  mkTM {[q0; q1]} {[q1]} q0 deltaB' None.

(** [machineB'] on input "1" after its first and after its second call
    of [next]. *)
Definition machineB'_1 : TuringMachine :=
  mkTM {[q0; q1]} {[q1]} q1 deltaB' (Some (mkTape ["1"; BLANK] 2 1)).
Definition machineB'_2 : TuringMachine :=
  mkTM {[q0; q1]} {[q1]} q0 deltaB' (Some (mkTape ["1"; "x"] 2 0)).

(** [machineB] on input "1" after its first call of [next]. *)
Definition machineB_1 : TuringMachine :=
  mkTM {[q0; q1]} {[q1]} q1 deltaB (Some (mkTape ["1"; BLANK] 2 1)).

(** The action the transition function defines for a state and a symbol,
    if any: the test [state in delta and symbol in delta[state]]. *)
Definition lookup_action (delta : TransitionFunction) (state : State)
    (symbol : Symbol) : option (Symbol * State * Direction) :=
  row ← delta !! state; row !! symbol.

(** The tape attributes exist and satisfy both invariants. *)
Definition tape_wf (self : TuringMachine) : Prop :=
  ∃ t, tape_attrs self = Some t ∧ length_ok t ∧ head_ok t.

(** The object [next] leaves when it takes the transition
    [(new_symbol, new_state, direction)] with the head on position [k]
    of the list. *)
Definition after_write (self : TuringMachine) (t : Tape) (k : nat)
    (new_symbol : Symbol) (new_state : State) : TuringMachine :=
  set_current_state
    (set_tape_attrs self
       (mkTape (<[k:=new_symbol]> (_tape t)) (_tape_length t) (_index t)))
    new_state.

(** The tape attributes a step leaves when the head is on the cell
    [_index] of the list: [new_symbol] written there, then the move. *)
Definition tape_after_step (t : Tape) (new_symbol : Symbol)
    (direction : Direction) : Tape :=
  let written := <[Z.to_nat (_index t):=new_symbol]> (_tape t) in
  if decide (direction = RIGHT) then
    if decide (_index t = _tape_length t - 1)
    then mkTape (written ++ [BLANK]) (_tape_length t + 1) (_index t + 1)
    else mkTape written (_tape_length t) (_index t + 1)
  else
    if decide (_index t = 0)
    then mkTape (BLANK :: written) (_tape_length t + 1) (_index t)
    else mkTape written (_tape_length t) (_index t - 1).

(** Every target state named in the transition function is one of
    [states] (which [__init__] does not check). *)
Definition delta_closed (states : gset State) (delta : TransitionFunction)
  : Prop :=
  ∀ state symbol new_symbol new_state direction,
    lookup_action delta state symbol =
      Some (new_symbol, new_state, direction) →
    new_state ∈ states.

(** ** The driver [main] (lines 113-169) *)

(** [''.join(l)] *)
Fixpoint str_join (l : list string) : string :=
  match l with
  | [] => EmptyString
  | x :: l' => x +:+ str_join l'
  end.

Fixpoint str_take (n : nat) (s : string) : string :=
  match n, s with
  | S n', String c s' => String c (str_take n' s')
  | _, _ => EmptyString
  end.

Fixpoint str_drop (n : nat) (s : string) : string :=
  match n, s with
  | S n', String _ s' => str_drop n' s'
  | _, _ => s
  end.

(** The position a slice bound [i] denotes in a sequence of [n] items:
    clipped to [n], and counted from the end when negative. *)
Definition py_slice_bound (n : nat) (i : Z) : nat :=
  if decide (0 ≤ i) then Nat.min (Z.to_nat i) n
  else Z.to_nat (Z.max (Z.of_nat n + i) 0).

(** [s[:i]] *)
Definition py_str_upto (s : string) (i : Z) : string :=
  str_take (py_slice_bound (String.length s) i) s.

(** [s[i:]] *)
Definition py_str_from (s : string) (i : Z) : string :=
  str_drop (py_slice_bound (String.length s) i) s.

(** The picture of the tape the loop prints (lines 151-156): the joined
    cells cut at the head position, the cell under the head between
    brackets. *)
Definition tape_visual (tm : TuringMachine) : result string :=
  t ← get_tape_attrs tm;
  let tape_str := str_join (_tape t) in
  let head_pos := _index t in
  cell ← (if decide (head_pos < Z.of_nat (length (_tape t)))
          then py_getitem (_tape t) head_pos
          else Ok BLANK);
  Ok (py_str_upto tape_str head_pos +:+ "[" +:+ cell +:+ "]" +:+
      py_str_from tape_str (head_pos + 1)).

(** The line printed before each step (line 157). *)
Definition state_line (state : State) (visual : string) : string :=
  "State: " +:+ state +:+ " | Tape: " +:+ visual.

(** How the loop ends: the three messages of lines 161, 164 and 167. *)
Inductive Verdict : Type :=
| InputAccepted
| InputRejected
| StepLimitExceeded.

(** What a run of the loop leaves: the state lines printed, in order,
    the final message, the machine and the counter [steps]. *)
Record Report : Type := mkReport {
  printed : list string;
  verdict : Verdict;
  final : TuringMachine;
  steps_taken : Z
}.

Definition add_line (line : string) (r : Report) : Report :=
  mkReport (line :: printed r) (verdict r) (final r) (steps_taken r).

(** The [while True] loop of lines 149-169, without the pause; the
    value of [tm.next()] is called [outcome] here.  [fuel] bounds the
    number of iterations; [Ok None] is a loop cut short by it. *)
Fixpoint main_loop (fuel : nat) (max_steps steps : Z) (tm : TuringMachine)
  : result (option Report) :=
  match fuel with
  | O => Ok None
  | S fuel' =>
      visual ← tape_visual tm;
      let line := state_line (_current_state tm) visual in
      '(tm', outcome) ← next tm;
      let steps := steps + 1 in
      if decide (outcome = Some ACCEPT) then
        Ok (Some (mkReport [line] InputAccepted tm' steps))
      else if decide (outcome = Some REJECT) then
        Ok (Some (mkReport [line] InputRejected tm' steps))
      else if decide (steps > max_steps) then
        Ok (Some (mkReport [line] StepLimitExceeded tm' steps))
      else
        rest ← main_loop fuel' max_steps steps tm';
        Ok (match rest with
            | Some r => Some (add_line line r)
            | None => None
            end)
  end.

(** [max_steps] of line 146. *)
Definition max_steps_for (tape_input : string) : Z :=
  Z.max 10000 (Z.of_nat (String.length tape_input) ^ 3).

(** [main] from the construction of the machine on (lines 141-169), for
    the parsed specification and the line the user typed. *)
Definition main_run (states : gset State) (initial_state : State)
    (delta : TransitionFunction) (accepting_states : gset State)
    (tape_input : string) : result (option Report) :=
  tm ← __init__ states initial_state delta accepting_states;
  let tm := input_tape (TapeList (str_chars tape_input)) tm in
  let max_steps := max_steps_for tape_input in
  main_loop (S (Z.to_nat max_steps)) max_steps 0 tm.

(** The transition function [main] builds from the ["delta"] entry of
    the specification (lines 132-136), for a specification whose
    states, symbols and directions are strings and whose actions have
    three components: every action is stored with the direction
    [direction == 'L']. *)
Definition parse_action (action : string * string * string)
  : Symbol * State * Direction :=
  let '(new_symbol, new_state, direction) := action in
  (new_symbol, new_state, bool_decide (direction = "L")).

Definition parse_delta
    (spec_delta : gmap string (gmap string (string * string * string)))
  : TransitionFunction :=
  map_fold
    (λ state transitions delta,
       <[state :=
           map_fold
             (λ symbol action row, <[symbol := parse_action action]> row)
             ∅ transitions]> delta)
    ∅ spec_delta.

(** What the driver reports for [machineB] on the input line "1". *)
Definition reportB : Report :=
  mkReport ["State: q0 | Tape: [1]"] InputAccepted machineB_1 1.

(** * Proofs *)

(** ** Python list indexing *)

Section py_lists.
Context {A : Type}.
Implicit Types (l : list A) (i : Z).

Lemma py_index_nonneg l i :
  0 ≤ i < Z.of_nat (length l) → py_index l i = Some (Z.to_nat i).
Proof. intros Hi. unfold py_index. by rewrite decide_True. Qed.

Lemma py_index_lt l i k : py_index l i = Some k → (k < length l)%nat.
Proof.
  unfold py_index. repeat case_decide; intros [= <-]; lia.
Qed.

Lemma py_index_nonneg_inv l i k :
  py_index l i = Some k → 0 ≤ i → k = Z.to_nat i.
Proof.
  unfold py_index. repeat case_decide; intros [= <-] ?; lia.
Qed.

Lemma py_getitem_Ok l i x :
  py_getitem l i = Ok x ↔ ∃ k, py_index l i = Some k ∧ l !! k = Some x.
Proof.
  unfold py_getitem. split.
  - destruct (py_index l i) as [k|]; [|done].
    destruct (l !! k) as [y|] eqn:Hk; [|done].
    intros [= ->]. eauto.
  - intros (k & -> & ->). done.
Qed.

Lemma py_getitem_nonneg l i :
  0 ≤ i < Z.of_nat (length l) →
  ∃ x, l !! Z.to_nat i = Some x ∧ py_getitem l i = Ok x.
Proof.
  intros Hi. destruct (lookup_lt_is_Some_2 l (Z.to_nat i)) as [x Hx]; [lia|].
  exists x. split; [done|]. apply py_getitem_Ok. eauto using py_index_nonneg.
Qed.

Lemma py_setitem_Ok l i y l' :
  py_setitem l i y = Ok l' ↔ ∃ k, py_index l i = Some k ∧ l' = <[k:=y]> l.
Proof.
  unfold py_setitem. split.
  - destruct (py_index l i) as [k|]; [|done]. intros [= <-]. eauto.
  - intros (k & -> & ->). done.
Qed.

Lemma py_setitem_length l i y l' :
  py_setitem l i y = Ok l' → length l' = length l.
Proof.
  intros (k & _ & ->)%py_setitem_Ok. apply length_insert.
Qed.
End py_lists.

Lemma length_str_chars s : length (str_chars s) = String.length s.
Proof. induction s as [|c s IH]; simpl; [done | by rewrite IH]. Qed.

Lemma py_len_py_list tape : py_len tape = Z.of_nat (length (py_list tape)).
Proof. destruct tape; simpl; [done | by rewrite length_str_chars]. Qed.

Lemma py_truthy_py_list tape : py_truthy tape = false ↔ py_list tape = [].
Proof. by destruct tape as [[|??]|[|??]]. Qed.

(** ** Unfolding the methods on an object that has its tape *)

Section with_tape.
Context (self : TuringMachine) (t : Tape).
Hypothesis Hattrs : tape_attrs self = Some t.

Lemma get_tape_attrs_Some : get_tape_attrs self = Ok t.
Proof using Hattrs. unfold get_tape_attrs. by rewrite Hattrs. Qed.

Lemma read_eq : read self = py_getitem (_tape t) (_index t).
Proof using Hattrs. unfold read. by rewrite get_tape_attrs_Some. Qed.

Lemma write_eq symbol :
  write symbol self =
    tape' ← py_setitem (_tape t) (_index t) symbol;
    Ok (set_tape_attrs self (mkTape tape' (_tape_length t) (_index t))).
Proof using Hattrs. unfold write. by rewrite get_tape_attrs_Some. Qed.

Lemma go_right_eq :
  go_right self =
    Ok (set_tape_attrs self
          (if decide (_index t = _tape_length t - 1)
           then mkTape (_tape t ++ [BLANK]) (_tape_length t + 1)
                       (_index t + 1)
           else mkTape (_tape t) (_tape_length t) (_index t + 1))).
Proof using Hattrs.
  unfold go_right. rewrite get_tape_attrs_Some. simpl. by case_decide.
Qed.

Lemma go_left_eq :
  go_left self =
    Ok (set_tape_attrs self
          (if decide (_index t = 0)
           then mkTape (BLANK :: _tape t) (_tape_length t + 1) (_index t)
           else mkTape (_tape t) (_tape_length t) (_index t - 1))).
Proof using Hattrs.
  unfold go_left. rewrite get_tape_attrs_Some. simpl. by case_decide.
Qed.
End with_tape.

(** ** Construction *)

Lemma __init___Ok states initial_state delta accepting_states :
  initial_state ∈ states → accepting_states ⊆ states →
  __init__ states initial_state delta accepting_states =
    Ok (mkTM states accepting_states initial_state delta None).
Proof.
  intros Hin Hsub. unfold __init__.
  rewrite decide_False by (by intros []).
  by rewrite bool_decide_eq_true_2.
Qed.

(** C7. Construction succeeds exactly when the initial state is one of
    the states and every accepting state is one of the states; it then
    stores its four arguments and leaves the tape attributes unset.
    Otherwise it raises [ValueError]: reporting the initial state when
    that is not one of the states, and else reporting the non-empty set
    of accepting states that are not states.  A failed construction
    yields no object, so there is nothing to step. *)
Theorem init_validates states initial_state delta accepting_states :
  ((initial_state ∈ states ∧ accepting_states ⊆ states) ↔
   ∃ self, __init__ states initial_state delta accepting_states = Ok self) ∧
  (initial_state ∈ states → accepting_states ⊆ states →
   __init__ states initial_state delta accepting_states =
     Ok (mkTM states accepting_states initial_state delta None)) ∧
  (initial_state ∉ states →
   __init__ states initial_state delta accepting_states =
     Raise (ValueError (InitialStateNotInStates initial_state))) ∧
  (initial_state ∈ states → accepting_states ⊈ states →
   __init__ states initial_state delta accepting_states =
     Raise (ValueError
              (AcceptingContainsInvalid (accepting_states ∖ states))) ∧
   accepting_states ∖ states ≠ ∅ ∧
   ∀ q, q ∈ accepting_states ∖ states ↔ q ∈ accepting_states ∧ q ∉ states).
Proof.
  assert (Hbad1 : initial_state ∉ states →
    __init__ states initial_state delta accepting_states =
      Raise (ValueError (InitialStateNotInStates initial_state))).
  { intros Hnin. unfold __init__. by rewrite decide_True. }
  assert (Hbad2 : initial_state ∈ states → accepting_states ⊈ states →
    __init__ states initial_state delta accepting_states =
      Raise (ValueError
               (AcceptingContainsInvalid (accepting_states ∖ states)))).
  { intros Hin Hnsub. unfold __init__.
    rewrite decide_False by (by intros []).
    by rewrite bool_decide_eq_false_2. }
  split_and!.
  - split.
    + intros [Hin Hsub]. eexists. by apply __init___Ok.
    + intros [self Hself].
      destruct (decide (initial_state ∈ states)) as [Hin|Hnin];
        [|by rewrite Hbad1 in Hself].
      destruct (decide (accepting_states ⊆ states)) as [Hsub|Hnsub];
        [done | by rewrite Hbad2 in Hself].
  - apply __init___Ok.
  - done.
  - intros Hin Hnsub. split_and!.
    + by apply Hbad2.
    + intros Hempty. apply Hnsub. set_solver.
    + set_solver.
Qed.

(** ** Tape initialization *)

(** C8. For the empty input (the empty list or the empty string)
    [input_tape] leaves a tape of exactly one cell holding [BLANK], a
    length counter of 1 and the head at 0; for a non-empty input the
    tape is exactly the input sequence, the counter is its length and
    the head is at 0.  The other attributes are untouched, and the call
    cannot raise ([input_tape] is a total function to objects). *)
Theorem input_tape_initializes (tape : TapeArg) (self : TuringMachine) :
  (py_list tape = [] →
   tape_attrs (input_tape tape self) = Some (mkTape [BLANK] 1 0)) ∧
  (py_list tape ≠ [] →
   tape_attrs (input_tape tape self) =
     Some (mkTape (py_list tape) (Z.of_nat (length (py_list tape))) 0)) ∧
  input_tape tape self =
    mkTM (_states self) (_accepting self) (_current_state self)
         (_delta self) (tape_attrs (input_tape tape self)).
Proof.
  unfold input_tape. split_and!.
  - intros Hnil%py_truthy_py_list. by rewrite Hnil.
  - intros Hne. destruct (py_truthy tape) eqn:Htr.
    + simpl. by rewrite py_len_py_list.
    + by apply py_truthy_py_list in Htr.
  - done.
Qed.

Lemma init_validates_witness :
  __init__ {[q0; q1]} q0 deltaB {[q1]} = Ok machineB ∧
  __init__ {[q0]} q1 ∅ {[q0]} =
    Raise (ValueError (InitialStateNotInStates q1)) ∧
  __init__ {[q0]} q0 ∅ {[q0; q1]} =
    Raise (ValueError (AcceptingContainsInvalid ({[q0; q1]} ∖ {[q0]}))).
Proof.
  split_and!.
  - apply (init_validates {[q0; q1]} q0 deltaB {[q1]}); compute_done.
  - apply (init_validates {[q0]} q1 ∅ {[q0]}). compute_done.
  - apply (init_validates {[q0]} q0 ∅ {[q0; q1]}); compute_done.
Defined.

Lemma input_tape_initializes_witness :
  tape_attrs (input_tape (TapeStr "") machineB) = Some (mkTape [BLANK] 1 0) ∧
  tape_attrs (input_tape (TapeList ["1"; "0"]) machineB) =
    Some (mkTape ["1"; "0"] 2 0).
Proof.
  split.
  - apply (input_tape_initializes (TapeStr "") machineB). reflexivity.
  - apply (input_tape_initializes (TapeList ["1"; "0"]) machineB). simpl.
    discriminate.
Defined.

(** ** Moving the head *)

(** C4. On a tape whose head satisfies the invariant, [go_right] with
    the head on the last cell appends exactly one cell, which holds
    [BLANK] (and on which the head lands when the counter is the real
    length); elsewhere it keeps tape and length and adds one to the
    head. [go_left] with the head at 0 prepends exactly one cell holding
    [BLANK] and keeps the head at 0, on that cell; elsewhere it keeps
    tape and length and subtracts one from the head.  No call grows the
    tape, or the counter, by more than one. *)
Theorem moves_grow_by_one (self : TuringMachine) (t : Tape)
    (Hattrs : tape_attrs self = Some t) (Hhead : head_ok t) :
  (∃ t', go_right self = Ok (set_tape_attrs self t') ∧
     (_index t = _tape_length t - 1 →
        _tape t' = _tape t ++ [BLANK] ∧
        _tape_length t' = _tape_length t + 1 ∧
        length (_tape t') = S (length (_tape t)) ∧
        _tape t' !! length (_tape t) = Some BLANK ∧
        _index t' = _index t + 1 ∧
        (length_ok t → _tape t' !! Z.to_nat (_index t') = Some BLANK)) ∧
     (_index t ≠ _tape_length t - 1 →
        _tape t' = _tape t ∧
        _tape_length t' = _tape_length t ∧
        _index t' = _index t + 1) ∧
     (length (_tape t') ≤ S (length (_tape t)))%nat ∧
     _tape_length t' ≤ _tape_length t + 1) ∧
  (∃ t', go_left self = Ok (set_tape_attrs self t') ∧
     (_index t = 0 →
        _tape t' = BLANK :: _tape t ∧
        _tape_length t' = _tape_length t + 1 ∧
        length (_tape t') = S (length (_tape t)) ∧
        _index t' = 0 ∧
        _tape t' !! Z.to_nat (_index t') = Some BLANK) ∧
     (_index t ≠ 0 →
        _tape t' = _tape t ∧
        _tape_length t' = _tape_length t ∧
        _index t' = _index t - 1) ∧
     (length (_tape t') ≤ S (length (_tape t)))%nat ∧
     _tape_length t' ≤ _tape_length t + 1).
Proof.
  split.
  - eexists. split; [by apply go_right_eq|].
    case_decide as Hlast; simpl; split_and!; try done; try lia.
    + intros _. split_and!; try done.
      * rewrite length_app. simpl. lia.
      * by rewrite lookup_app_r, Nat.sub_diag.
      * intros Hlen. red in Hlen.
        replace (Z.to_nat (_index t + 1)) with (length (_tape t)) by lia.
        by rewrite lookup_app_r, Nat.sub_diag.
    + rewrite length_app. simpl. lia.
  - eexists. split; [by apply go_left_eq|].
    case_decide as Hzero; simpl; split_and!; try done; try lia.
    intros _. split_and!; try done. by rewrite Hzero.
Qed.

Lemma moves_grow_by_one_witness :
  go_right (input_tape (TapeStr "1") machineB) =
    Ok (set_tape_attrs machineB (mkTape ["1"; BLANK] 2 1)) ∧
  go_left (input_tape (TapeStr "1") machineB) =
    Ok (set_tape_attrs machineB (mkTape [BLANK; "1"] 2 0)).
Proof.
  destruct (moves_grow_by_one (input_tape (TapeStr "1") machineB)
              (mkTape ["1"] 1 0) eq_refl)
    as [(tr & Hr & Hr1 & _) (tl & Hl & Hl1 & _)].
  { unfold head_ok. simpl. lia. }
  destruct (Hr1 eq_refl) as (Hr_tape & Hr_len & _ & _ & Hr_idx & _).
  destruct (Hl1 eq_refl) as (Hl_tape & Hl_len & _ & Hl_idx & _).
  destruct tr, tl. simpl in *. subst. by split.
Defined.

(** The two invariants together are kept by both moves. *)
Lemma do_move_wf mv self :
  tape_wf self → ∃ self', do_move mv self = Ok self' ∧ tape_wf self'.
Proof.
  intros (t & Hattrs & Hlen & Hhead). unfold length_ok, head_ok in *.
  destruct mv; simpl.
  - rewrite (go_left_eq _ _ Hattrs). eexists. split; [done|].
    eexists. split; [done|]. unfold length_ok, head_ok.
    case_decide; simpl; lia.
  - rewrite (go_right_eq _ _ Hattrs). eexists. split; [done|].
    eexists. split; [done|]. unfold length_ok, head_ok.
    case_decide; simpl; rewrite ?length_app; simpl; lia.
Qed.

Lemma do_moves_wf mvs : ∀ self,
  tape_wf self → ∃ self', do_moves mvs self = Ok self' ∧ tape_wf self'.
Proof.
  induction mvs as [|mv mvs IH]; intros self Hwf; simpl.
  - eauto.
  - destruct (do_move_wf mv self Hwf) as (self1 & -> & Hwf1). simpl.
    by apply IH.
Qed.

Lemma input_tape_wf tape self : tape_wf (input_tape tape self).
Proof.
  unfold input_tape. eexists. split; [done|].
  unfold length_ok, head_ok. simpl. split; [apply py_len_py_list|].
  rewrite py_len_py_list. split; [done|].
  destruct (py_truthy tape) eqn:Htr; simpl; [|lia].
  destruct (py_list tape) eqn:Hl; simpl; [|lia].
  apply py_truthy_py_list in Hl. congruence.
Qed.

(** C3. Start from the tape [input_tape] builds from any input, empty
    or not, and issue any finite sequence of [go_left] and [go_right]
    calls: no call raises, and after each of them (after the first [k]
    calls, for every [k]) the head satisfies
    [0 <= _index < _tape_length], the counter being the real length of
    the tape. *)
Theorem head_invariant_after_moves (tape : TapeArg) (self : TuringMachine)
    (mvs : list Move) (k : nat) :
  ∃ self' t',
    do_moves (take k mvs) (input_tape tape self) = Ok self' ∧
    tape_attrs self' = Some t' ∧
    0 ≤ _index t' < _tape_length t' ∧
    _tape_length t' = Z.of_nat (length (_tape t')).
Proof.
  destruct (do_moves_wf (take k mvs) (input_tape tape self))
    as (self' & Hrun & t' & Hattrs & Hlen & Hhead).
  { apply input_tape_wf. }
  by exists self', t'.
Qed.

(** ** One step *)

(** [next] with the nested dictionary test folded into [lookup_action]. *)
Lemma next_unfold self :
  next self =
    symbol ← read self;
    match lookup_action (_delta self) (_current_state self) symbol with
    | Some (new_symbol, new_state, direction) =>
        written ← write new_symbol self;
        moved ← (if decide (direction = RIGHT)
                 then go_right (set_current_state written new_state)
                 else go_left (set_current_state written new_state));
        Ok (moved, if decide (new_state ∈ _accepting moved)
                   then Some ACCEPT else None)
    | None => Ok (self, Some REJECT)
    end.
Proof.
  unfold next, lookup_action. destruct (read self) as [symbol|e]; [|done].
  simpl. destruct (_delta self !! _current_state self) as [row|]; [|done].
  simpl. destruct (row !! symbol) as [[[new_symbol new_state] direction]|];
    [|done].
  destruct (write new_symbol self) as [written|e]; [|done]. simpl.
  destruct (if decide (direction = RIGHT)
            then go_right (set_current_state written new_state)
            else go_left (set_current_state written new_state))
    as [moved|e]; [|done].
  simpl. by case_decide.
Qed.

(** A cell that can be read can be written: the write lands on the very
    cell that was read and changes nothing else. *)
Lemma write_after_read self t symbol symbol' :
  tape_attrs self = Some t → read self = Ok symbol →
  ∃ k, py_index (_tape t) (_index t) = Some k ∧
       _tape t !! k = Some symbol ∧
       write symbol' self =
         Ok (set_tape_attrs self
               (mkTape (<[k:=symbol']> (_tape t)) (_tape_length t)
                       (_index t))).
Proof.
  intros Hattrs. rewrite (read_eq _ _ Hattrs), (write_eq _ _ Hattrs).
  intros (k & Hk & Hsym)%py_getitem_Ok. exists k. split_and!; [done..|].
  unfold py_setitem. by rewrite Hk.
Qed.

Lemma read_Ok_attrs self symbol :
  read self = Ok symbol → ∃ t, tape_attrs self = Some t.
Proof.
  unfold read, get_tape_attrs. destruct (tape_attrs self); [eauto|done].
Qed.

(** After the write and the change of state, the move cannot raise; it
    touches the tape attributes only. *)
Lemma move_after_write self t k new_symbol new_state direction :
  ∃ moved,
    (if decide (direction = RIGHT)
     then go_right (after_write self t k new_symbol new_state)
     else go_left (after_write self t k new_symbol new_state)) = Ok moved ∧
    _current_state moved = new_state ∧
    _accepting moved = _accepting self.
Proof.
  case_decide.
  - rewrite (go_right_eq (after_write self t k new_symbol new_state) _
               eq_refl). eauto.
  - rewrite (go_left_eq (after_write self t k new_symbol new_state) _
               eq_refl). eauto.
Qed.

(** The step along a defined transition. *)
Lemma next_Some self t symbol new_symbol new_state direction :
  tape_attrs self = Some t →
  read self = Ok symbol →
  lookup_action (_delta self) (_current_state self) symbol =
    Some (new_symbol, new_state, direction) →
  ∃ k moved,
    py_index (_tape t) (_index t) = Some k ∧
    (if decide (direction = RIGHT)
     then go_right (after_write self t k new_symbol new_state)
     else go_left (after_write self t k new_symbol new_state)) = Ok moved ∧
    _current_state moved = new_state ∧
    next self =
      Ok (moved,
          if decide (new_state ∈ _accepting self)
          then Some ACCEPT else None).
Proof.
  intros Hattrs Hread Haction.
  destruct (write_after_read self t symbol new_symbol Hattrs Hread)
    as (k & Hk & _ & Hwrite).
  destruct (move_after_write self t k new_symbol new_state direction)
    as (moved & Hmove & Hstate & Hacc).
  exists k, moved. split_and!; [done..|].
  rewrite next_unfold, Hread. simpl. rewrite Haction, Hwrite. simpl.
  fold (after_write self t k new_symbol new_state).
  rewrite Hmove. simpl. by rewrite Hacc.
Qed.

(** The step when no transition is defined. *)
Lemma next_None self symbol :
  read self = Ok symbol →
  lookup_action (_delta self) (_current_state self) symbol = None →
  next self = Ok (self, Some REJECT).
Proof.
  intros Hread Haction. rewrite next_unfold, Hread. simpl.
  by rewrite Haction.
Qed.

(** C1. When the transition function defines
    [(new_symbol, new_state, direction)] for the current state and the
    symbol read under the head, [next] overwrites the cell under the
    head with [new_symbol] (the cell at [_index], for a head that is
    not negative), makes [new_state] the current state, then calls
    [go_right] if the direction is [RIGHT] and [go_left] otherwise, and
    returns [ACCEPT] if [new_state] is accepting and [None] (continue)
    otherwise.  The object it leaves is given in full: nothing but the
    current state and the tape attributes differs from [self]; for
    [RIGHT] the head is [_index + 1], after one [BLANK] has been
    appended and the counter raised when the head was on the cell
    [_tape_length - 1]; for any other direction the head is
    [_index - 1], unless it was 0: then it stays 0, one [BLANK] is put
    in front and the counter is raised.  For scenario B on input "1"
    the first call returns [ACCEPT] in state q1 with a tape of two
    cells and the head at 1. *)
Theorem next_takes_transition :
  (∀ (self : TuringMachine) (t : Tape) (symbol new_symbol : Symbol)
     (new_state : State) (direction : Direction),
     tape_attrs self = Some t →
     read self = Ok symbol →
     lookup_action (_delta self) (_current_state self) symbol =
       Some (new_symbol, new_state, direction) →
     ∃ k moved,
       py_index (_tape t) (_index t) = Some k ∧
       (0 ≤ _index t → k = Z.to_nat (_index t)) ∧
       _tape t !! k = Some symbol ∧
       (if decide (direction = RIGHT)
        then go_right (after_write self t k new_symbol new_state)
        else go_left (after_write self t k new_symbol new_state))
         = Ok moved ∧
       moved =
         mkTM (_states self) (_accepting self) new_state (_delta self)
           (Some
              (if decide (direction = RIGHT) then
                 if decide (_index t = _tape_length t - 1)
                 then mkTape (<[k:=new_symbol]> (_tape t) ++ [BLANK])
                             (_tape_length t + 1) (_index t + 1)
                 else mkTape (<[k:=new_symbol]> (_tape t))
                             (_tape_length t) (_index t + 1)
               else
                 if decide (_index t = 0)
                 then mkTape (BLANK :: <[k:=new_symbol]> (_tape t))
                             (_tape_length t + 1) 0
                 else mkTape (<[k:=new_symbol]> (_tape t))
                             (_tape_length t) (_index t - 1))) ∧
       (0 ≤ _index t →
        tape_attrs moved = Some (tape_after_step t new_symbol direction)) ∧
       _current_state moved = new_state ∧
       next self =
         Ok (moved,
             if decide (new_state ∈ _accepting self)
             then Some ACCEPT else None)) ∧
  (scenarioB = Ok machineB ∧
   next (input_tape (TapeStr "1") machineB) =
     Ok (mkTM {[q0; q1]} {[q1]} q1 deltaB (Some (mkTape ["1"; BLANK] 2 1)),
         Some ACCEPT)).
Proof.
  split; [|by vm_compute].
  intros self t symbol new_symbol new_state direction Hattrs Hread Haction.
  destruct (write_after_read self t symbol new_symbol Hattrs Hread)
    as (k & Hk & Hsym & Hwrite).
  destruct (move_after_write self t k new_symbol new_state direction)
    as (moved & Hmove & Hstate & Hacc).
  assert (Hmoved : moved =
    mkTM (_states self) (_accepting self) new_state (_delta self)
      (Some
         (if decide (direction = RIGHT) then
            if decide (_index t = _tape_length t - 1)
            then mkTape (<[k:=new_symbol]> (_tape t) ++ [BLANK])
                        (_tape_length t + 1) (_index t + 1)
            else mkTape (<[k:=new_symbol]> (_tape t))
                        (_tape_length t) (_index t + 1)
          else
            if decide (_index t = 0)
            then mkTape (BLANK :: <[k:=new_symbol]> (_tape t))
                        (_tape_length t + 1) 0
            else mkTape (<[k:=new_symbol]> (_tape t))
                        (_tape_length t) (_index t - 1)))).
  { destruct (decide (direction = RIGHT)).
    - rewrite (go_right_eq (after_write self t k new_symbol new_state) _
                 eq_refl) in Hmove.
      injection Hmove as <-. simpl. by case_decide.
    - rewrite (go_left_eq (after_write self t k new_symbol new_state) _
                 eq_refl) in Hmove.
      injection Hmove as <-. simpl.
      case_decide as Hzero; [|done]. by rewrite Hzero. }
  exists k, moved.
  split; [done|]. split; [by eapply py_index_nonneg_inv|].
  split; [done|]. split; [done|]. split; [done|].
  split; [|split; [done|]].
  - intros Hnonneg. apply py_index_nonneg_inv in Hk; [subst k|done].
    rewrite Hmoved. simpl. unfold tape_after_step.
    repeat case_decide; try done. f_equal. f_equal. lia.
  - rewrite next_unfold, Hread. simpl. rewrite Haction, Hwrite. simpl.
    fold (after_write self t k new_symbol new_state).
    rewrite Hmove. simpl. by rewrite Hacc.
Qed.

Lemma next_takes_transition_witness :
  next (input_tape (TapeStr "10") machineB) =
    Ok (mkTM {[q0; q1]} {[q1]} q1 deltaB (Some (mkTape ["1"; "0"] 2 1)),
        Some ACCEPT) ∧
  next machineB'_1 =
    Ok (mkTM {[q0; q1]} {[q1]} q0 deltaB' (Some (mkTape ["1"; "x"] 2 0)),
        None).
Proof.
  split.
  - destruct (proj1 next_takes_transition
                (input_tape (TapeStr "10") machineB) (mkTape ["1"; "0"] 2 0)
                "1" "1" q1 RIGHT eq_refl eq_refl eq_refl)
      as (k & moved & Hk & _ & _ & _ & Hmoved & _ & _ & Hnext).
    injection Hk as <-. rewrite Hnext, Hmoved. reflexivity.
  - destruct (proj1 next_takes_transition
                machineB'_1 (mkTape ["1"; BLANK] 2 1)
                BLANK "x" q0 LEFT eq_refl eq_refl eq_refl)
      as (k & moved & Hk & _ & _ & _ & Hmoved & _ & _ & Hnext).
    injection Hk as <-. rewrite Hnext, Hmoved. reflexivity.
Defined.

(** C2. When the transition function defines no action for the current
    state and the symbol read under the head, [next] returns [REJECT]
    and the object is the one it was called on: tape, length counter,
    head and current state are all unchanged. *)
Theorem next_rejects_without_transition (self : TuringMachine)
    (symbol : Symbol)
    (Hread : read self = Ok symbol)
    (Haction : lookup_action (_delta self) (_current_state self) symbol
               = None) :
  next self = Ok (self, Some REJECT).
Proof. rewrite next_unfold, Hread. simpl. by rewrite Haction. Qed.

Lemma next_rejects_without_transition_witness :
  next (input_tape (TapeStr "0") machineB) =
    Ok (input_tape (TapeStr "0") machineB, Some REJECT).
Proof.
  apply (next_rejects_without_transition
           (input_tape (TapeStr "0") machineB) "0"); reflexivity.
Defined.

(** What [next] returned tells which branch it took. *)
Lemma next_inv self self' r :
  next self = Ok (self', r) →
  ∃ symbol, read self = Ok symbol ∧
    match lookup_action (_delta self) (_current_state self) symbol with
    | Some (new_symbol, new_state, direction) =>
        r = (if decide (new_state ∈ _accepting self)
             then Some ACCEPT else None) ∧
        _current_state self' = new_state
    | None => r = Some REJECT ∧ self' = self
    end.
Proof.
  intros Hnext. destruct (read self) as [symbol|e] eqn:Hread.
  - exists symbol. split; [done|].
    destruct (lookup_action _ _ symbol) as [[[new_symbol new_state] d]|]
      eqn:Haction.
    + destruct (read_Ok_attrs _ _ Hread) as [t Hattrs].
      destruct (next_Some self t symbol new_symbol new_state d
                  Hattrs Hread Haction)
        as (k & moved & _ & _ & Hstate & Hnext').
      rewrite Hnext in Hnext'. by injection Hnext' as -> ->.
    + rewrite (next_None _ _ Hread Haction) in Hnext.
      by injection Hnext as <- <-.
  - rewrite next_unfold, Hread in Hnext. done.
Qed.

(** C9. Scenario A: the only state q0 is accepting and there is no
    transition; on input "1" the first [next] returns [REJECT] (and
    changes nothing).  In general [next] returns [ACCEPT] only after
    taking a transition whose target state is accepting: being in an
    accepting state is never reported by itself. *)
Theorem accept_needs_transition :
  (scenarioA = Ok machineA ∧
   _current_state machineA ∈ _accepting machineA ∧
   next (input_tape (TapeStr "1") machineA) =
     Ok (input_tape (TapeStr "1") machineA, Some REJECT)) ∧
  (∀ self self',
     next self = Ok (self', Some ACCEPT) →
     ∃ symbol new_symbol new_state direction,
       read self = Ok symbol ∧
       lookup_action (_delta self) (_current_state self) symbol =
         Some (new_symbol, new_state, direction) ∧
       new_state ∈ _accepting self ∧
       _current_state self' = new_state).
Proof.
  split.
  - split_and!; [by vm_compute | compute_done | by vm_compute].
  - intros self self' (symbol & Hread & Hbranch)%next_inv.
    destruct (lookup_action _ _ symbol) as [[[new_symbol new_state] d]|]
      eqn:Haction.
    + destruct Hbranch as [Hr Hstate]. case_decide; [|done].
      by exists symbol, new_symbol, new_state, d.
    + by destruct Hbranch.
Qed.

Lemma accept_needs_transition_witness :
  ∃ symbol new_symbol new_state direction,
    read (input_tape (TapeStr "1") machineB) = Ok symbol ∧
    lookup_action deltaB q0 symbol =
      Some (new_symbol, new_state, direction) ∧
    new_state ∈ ({[q1]} : gset State) ∧
    q1 = new_state.
Proof.
  apply (proj2 accept_needs_transition (input_tape (TapeStr "1") machineB)
           (mkTM {[q0; q1]} {[q1]} q1 deltaB
                 (Some (mkTape ["1"; BLANK] 2 1)))).
  vm_compute. reflexivity.
Defined.

(** ** The length counter *)

Lemma write_Ok self t symbol self' :
  tape_attrs self = Some t → write symbol self = Ok self' →
  ∃ tape', self' = set_tape_attrs self
                     (mkTape tape' (_tape_length t) (_index t)) ∧
           length tape' = length (_tape t).
Proof.
  intros Hattrs. rewrite (write_eq _ _ Hattrs).
  destruct (py_setitem _ _ _) as [tape'|e] eqn:Hset; [|done].
  simpl. intros [= <-]. exists tape'. split; [done|].
  by eapply py_setitem_length.
Qed.

Lemma go_right_ok self t :
  tape_attrs self = Some t → length_ok t →
  ∃ t', go_right self = Ok (set_tape_attrs self t') ∧
        length_ok t' ∧ (head_ok t → head_ok t').
Proof.
  intros Hattrs Hlen. eexists. split; [by apply go_right_eq|].
  unfold length_ok, head_ok in *.
  case_decide; simpl; rewrite ?length_app; simpl; lia.
Qed.

Lemma go_left_ok self t :
  tape_attrs self = Some t → length_ok t →
  ∃ t', go_left self = Ok (set_tape_attrs self t') ∧
        length_ok t' ∧ (head_ok t → head_ok t').
Proof.
  intros Hattrs Hlen. eexists. split; [by apply go_left_eq|].
  unfold length_ok, head_ok in *. case_decide; simpl; lia.
Qed.

Lemma next_ok self t self' r :
  tape_attrs self = Some t → length_ok t → next self = Ok (self', r) →
  ∃ t', tape_attrs self' = Some t' ∧ length_ok t' ∧ (head_ok t → head_ok t').
Proof.
  intros Hattrs Hlen Hnext.
  destruct (next_inv _ _ _ Hnext) as (symbol & Hread & Hbranch).
  destruct (lookup_action _ _ symbol) as [[[new_symbol new_state] d]|]
    eqn:Haction.
  - destruct (next_Some _ _ _ _ _ _ Hattrs Hread Haction)
      as (k & moved & _ & Hmove & _ & Hnext').
    rewrite Hnext in Hnext'. injection Hnext' as -> _.
    set (t1 := mkTape (<[k:=new_symbol]> (_tape t)) (_tape_length t)
                      (_index t)) in *.
    assert (Hlen1 : length_ok t1).
    { unfold length_ok, t1. simpl. by rewrite length_insert. }
    case_decide.
    + destruct (go_right_ok (after_write self t k new_symbol new_state) t1
                  eq_refl Hlen1) as (t' & Hgo & ? & ?).
      rewrite Hgo in Hmove. injection Hmove as <-. by exists t'.
    + destruct (go_left_ok (after_write self t k new_symbol new_state) t1
                  eq_refl Hlen1) as (t' & Hgo & ? & ?).
      rewrite Hgo in Hmove. injection Hmove as <-. by exists t'.
  - destruct Hbranch as [_ ->]. by exists t.
Qed.

Lemma read_in_bounds self t :
  tape_attrs self = Some t → length_ok t → head_ok t →
  ∃ symbol, _tape t !! Z.to_nat (_index t) = Some symbol ∧
            read self = Ok symbol.
Proof.
  intros Hattrs Hlen Hhead. rewrite (read_eq _ _ Hattrs).
  apply py_getitem_nonneg. unfold length_ok, head_ok in *. lia.
Qed.

(** With both invariants [next] does not raise, and keeps them. *)
Lemma next_total self :
  tape_wf self → ∃ self' r, next self = Ok (self', r) ∧ tape_wf self'.
Proof.
  intros (t & Hattrs & Hlen & Hhead).
  destruct (read_in_bounds _ _ Hattrs Hlen Hhead) as (symbol & _ & Hread).
  assert (∃ self' r, next self = Ok (self', r)) as (self' & r & Hnext).
  { destruct (lookup_action (_delta self) (_current_state self) symbol)
      as [[[new_symbol new_state] d]|] eqn:Haction.
    - destruct (next_Some _ _ _ _ _ _ Hattrs Hread Haction)
        as (k & moved & _ & _ & _ & Hnext). eauto.
    - rewrite (next_None _ _ Hread Haction). eauto. }
  exists self', r. split; [done|].
  destruct (next_ok _ _ _ _ Hattrs Hlen Hnext) as (t' & ? & ? & Hhead').
  exists t'. auto.
Qed.

(** C10. The counter [_tape_length] is always the number of cells of
    [_tape]: [input_tape] establishes the equality (with the head on a
    cell), and [go_right], [go_left], [write] and [next] each keep it,
    and keep the head on a cell when it was on one.  With the head on a
    cell and the counter right, [read] and [write] address the cell
    [_index] of the list, inside its bounds, so neither raises, and
    [next] does not raise either. *)
Theorem length_counter_invariant :
  (∀ tape self,
     ∃ t, tape_attrs (input_tape tape self) = Some t ∧
          length_ok t ∧ head_ok t) ∧
  (∀ self t,
     tape_attrs self = Some t → length_ok t →
     (∃ t', go_right self = Ok (set_tape_attrs self t') ∧
            length_ok t' ∧ (head_ok t → head_ok t')) ∧
     (∃ t', go_left self = Ok (set_tape_attrs self t') ∧
            length_ok t' ∧ (head_ok t → head_ok t')) ∧
     (∀ symbol self', write symbol self = Ok self' →
        ∃ t', tape_attrs self' = Some t' ∧ length_ok t' ∧
              _tape_length t' = _tape_length t ∧ _index t' = _index t) ∧
     (∀ self' r, next self = Ok (self', r) →
        ∃ t', tape_attrs self' = Some t' ∧
              length_ok t' ∧ (head_ok t → head_ok t')) ∧
     (head_ok t →
        (Z.to_nat (_index t) < length (_tape t))%nat ∧
        (∃ symbol, _tape t !! Z.to_nat (_index t) = Some symbol ∧
                   read self = Ok symbol) ∧
        (∀ symbol,
           write symbol self =
             Ok (set_tape_attrs self
                   (mkTape (<[Z.to_nat (_index t):=symbol]> (_tape t))
                           (_tape_length t) (_index t)))) ∧
        (∃ self' r, next self = Ok (self', r)))).
Proof.
  split; [apply input_tape_wf|].
  intros self t Hattrs Hlen. split_and!.
  - by apply go_right_ok.
  - by apply go_left_ok.
  - intros symbol self' (tape' & -> & Hlen')%(write_Ok _ t); [|done].
    eexists. split; [done|]. unfold length_ok in *. simpl. split; [|done].
    by rewrite Hlen'.
  - intros self' r. by apply next_ok.
  - intros Hhead.
    assert (Hin : 0 ≤ _index t < Z.of_nat (length (_tape t))).
    { unfold length_ok, head_ok in *. lia. }
    split_and!.
    + lia.
    + by apply read_in_bounds.
    + intros symbol. rewrite (write_eq _ _ Hattrs). unfold py_setitem.
      by rewrite py_index_nonneg.
    + destruct (next_total self) as (self' & r & Hnext & _); [|eauto].
      by exists t.
Qed.

Lemma length_counter_invariant_witness :
  (∃ symbol, ["1"; "0"] !! 0%nat = Some symbol ∧
             read (input_tape (TapeStr "10") machineB) = Ok symbol) ∧
  (∃ t', go_right (input_tape (TapeStr "10") machineB) =
           Ok (set_tape_attrs (input_tape (TapeStr "10") machineB) t') ∧
         length_ok t' ∧
         (head_ok (mkTape ["1"; "0"] 2 0) → head_ok t')).
Proof.
  assert (Hlen : length_ok (mkTape ["1"; "0"] 2 0)) by reflexivity.
  assert (Hhead : head_ok (mkTape ["1"; "0"] 2 0)).
  { unfold head_ok. simpl. lia. }
  destruct (proj2 length_counter_invariant
              (input_tape (TapeStr "10") machineB) (mkTape ["1"; "0"] 2 0)
              eq_refl Hlen)
    as (Hright & _ & _ & _ & Hbounds).
  destruct (Hbounds Hhead) as (_ & Hread & _).
  split; [exact Hread | exact Hright].
Defined.

(** ** After a terminal outcome *)

(** C5, as the code has it.  A call of [next] that returned [REJECT]
    changed nothing, so every further call returns [REJECT] again and
    leaves tape, head and current state as they are: rejection is
    final.  (Nothing of the kind is kept after [ACCEPT]; to stop there
    is left to the caller.) *)
Theorem reject_is_final (self self' : TuringMachine)
    (Hreject : next self = Ok (self', Some REJECT)) :
  self' = self ∧
  ∀ n, trace n self' = Ok (replicate n (self, Some REJECT)) ∧
       steps n self' = Ok self.
Proof.
  assert (self' = self) as ->.
  { destruct (next_inv _ _ _ Hreject) as (symbol & _ & Hbranch).
    destruct (lookup_action _ _ symbol) as [[[new_symbol new_state] d]|].
    - destruct Hbranch as [Hr _]. by case_decide.
    - by destruct Hbranch. }
  split; [done|].
  induction n as [|n [IHt IHs]]; simpl; [done|].
  rewrite Hreject. simpl. by rewrite IHt, IHs.
Qed.

Lemma reject_is_final_witness :
  trace 3 (input_tape (TapeStr "0") machineB) =
    Ok (replicate 3 (input_tape (TapeStr "0") machineB, Some REJECT)).
Proof.
  apply (reject_is_final (input_tape (TapeStr "0") machineB)
           (input_tape (TapeStr "0") machineB)).
  reflexivity.
Defined.

(** C5 fails after [ACCEPT]: with the transitions of [deltaB'] on input
    "1", the first [next] returns [ACCEPT] in state q1, and a second
    [next] on the same object takes the transition out of q1: it
    writes "x", moves the head back to 0, changes the state to q0 and
    returns [None], like any step of a running machine. *)
Lemma accept_is_not_final :
  scenarioB' = Ok machineB' ∧
  next (input_tape (TapeStr "1") machineB') = Ok (machineB'_1, Some ACCEPT) ∧
  next machineB'_1 = Ok (machineB'_2, None) ∧
  _current_state machineB'_2 ≠ _current_state machineB'_1 ∧
  (_tape <$> tape_attrs machineB'_2) ≠ (_tape <$> tape_attrs machineB'_1) ∧
  (_index <$> tape_attrs machineB'_2) ≠ (_index <$> tape_attrs machineB'_1).
Proof. split_and!; by vm_compute. Qed.

(** ** Several runs on one object *)

(** [next] never assigns [_states], [_accepting] or [_delta]. *)
Lemma next_frame self self' r :
  next self = Ok (self', r) →
  _states self' = _states self ∧ _accepting self' = _accepting self ∧
  _delta self' = _delta self.
Proof.
  intros Hnext.
  destruct (next_inv _ _ _ Hnext) as (symbol & Hread & Hbranch).
  destruct (read_Ok_attrs _ _ Hread) as [t Hattrs].
  destruct (lookup_action _ _ symbol) as [[[new_symbol new_state] d]|]
    eqn:Haction.
  - destruct (next_Some _ _ _ _ _ _ Hattrs Hread Haction)
      as (k & moved & _ & Hmove & _ & Hnext').
    rewrite Hnext in Hnext'. injection Hnext' as -> _.
    case_decide.
    + rewrite (go_right_eq (after_write self t k new_symbol new_state) _
                 eq_refl) in Hmove.
      by injection Hmove as <-.
    + rewrite (go_left_eq (after_write self t k new_symbol new_state) _
                 eq_refl) in Hmove.
      by injection Hmove as <-.
  - by destruct Hbranch as [_ ->].
Qed.

Lemma steps_frame n : ∀ self self',
  steps n self = Ok self' →
  _states self' = _states self ∧ _accepting self' = _accepting self ∧
  _delta self' = _delta self.
Proof.
  induction n as [|n IH]; intros self self'; simpl.
  - by intros [= ->].
  - destruct (next self) as [[self1 r]|e] eqn:Hnext; [|done]. simpl.
    intros (-> & -> & ->)%IH. by eapply next_frame.
Qed.

Lemma steps_total n : ∀ self,
  tape_wf self → ∃ self', steps n self = Ok self' ∧ tape_wf self'.
Proof.
  induction n as [|n IH]; intros self Hwf; simpl; [eauto|].
  destruct (next_total self Hwf) as (self1 & r & -> & Hwf1). simpl.
  by apply IH.
Qed.

Lemma trace_total n : ∀ self,
  tape_wf self → ∃ tr, trace n self = Ok tr ∧ length tr = n.
Proof.
  induction n as [|n IH]; intros self Hwf; simpl; [by exists []|].
  destruct (next_total self Hwf) as (self1 & r & -> & Hwf1). simpl.
  destruct (IH self1 Hwf1) as (tr & -> & Hlen). simpl.
  eexists. split; [done|]. simpl. by rewrite Hlen.
Qed.

(** C6, as the code has it.  [input_tape] replaces tape, length counter
    and head, and nothing else: after an earlier run of [k] steps on
    input [a] (which never raises), the object given input [b] is the
    freshly constructed object given input [b], except that its current
    state is the one the earlier run ended in.  So when the earlier run
    ended in the initial state, [n] steps on [b] yield the same
    [n] outcomes, states, heads and tapes as on a fresh object. *)
Theorem rerun_keeps_current_state
    (states : gset State) (initial_state : State) (delta : TransitionFunction)
    (accepting_states : gset State) (fresh : TuringMachine)
    (a b : TapeArg) (k n : nat)
    (Hinit : __init__ states initial_state delta accepting_states = Ok fresh) :
  ∃ used,
    steps k (input_tape a fresh) = Ok used ∧
    input_tape b used =
      set_current_state (input_tape b fresh) (_current_state used) ∧
    (_current_state used = initial_state →
     ∃ tr, trace n (input_tape b fresh) = Ok tr ∧ length tr = n ∧
           trace n (input_tape b used) = Ok tr).
Proof.
  destruct (steps_total k (input_tape a fresh)) as (used & Hrun & _);
    [apply input_tape_wf|].
  exists used. split; [done|].
  destruct (steps_frame _ _ _ Hrun) as (Hst & Hacc & Hdelta).
  assert (Hfresh : _current_state fresh = initial_state).
  { revert Hinit. unfold __init__. case_decide; [done|].
    destruct (negb _); [done|]. by intros [= <-]. }
  assert (Heq : input_tape b used =
    set_current_state (input_tape b fresh) (_current_state used)).
  { unfold input_tape, set_tape_attrs, set_current_state. simpl.
    simpl in Hst, Hacc, Hdelta. by rewrite Hst, Hacc, Hdelta. }
  split; [done|].
  intros Hstate. rewrite Heq, Hstate, <- Hfresh.
  replace (set_current_state (input_tape b fresh) (_current_state fresh))
    with (input_tape b fresh) by by destruct fresh.
  destruct (trace_total n (input_tape b fresh)) as (tr & Htr & Hlen);
    [apply input_tape_wf|].
  by exists tr.
Qed.

Lemma rerun_keeps_current_state_witness :
  ∃ used tr,
    steps 2 (input_tape (TapeStr "0") machineB) = Ok used ∧
    trace 1 (input_tape (TapeStr "1") machineB) = Ok tr ∧
    trace 1 (input_tape (TapeStr "1") used) = Ok tr.
Proof.
  destruct (rerun_keeps_current_state {[q0; q1]} q0 deltaB {[q1]} machineB
              (TapeStr "0") (TapeStr "1") 2 1)
    as (used & Hrun & _ & Hsame).
  { vm_compute. reflexivity. }
  destruct Hsame as (tr & Hfresh & _ & Hused).
  { vm_compute in Hrun. injection Hrun as <-. reflexivity. }
  exists used, tr. split_and!; [exact Hrun | exact Hfresh | exact Hused].
Defined.

(** C6 fails when the earlier run moved the machine out of its initial
    state: one step of [machineB] on input "1" accepts and leaves it in
    q1; given the input "1" again, the same object rejects at once,
    where a freshly constructed one accepts. *)
Lemma rerun_differs_from_fresh :
  __init__ {[q0; q1]} q0 deltaB {[q1]} = Ok machineB ∧
  steps 1 (input_tape (TapeStr "1") machineB) = Ok machineB_1 ∧
  trace 1 (input_tape (TapeStr "1") machineB_1) =
    Ok [(input_tape (TapeStr "1") machineB_1, Some REJECT)] ∧
  trace 1 (input_tape (TapeStr "1") machineB) =
    Ok [(machineB_1, Some ACCEPT)] ∧
  trace 1 (input_tape (TapeStr "1") machineB_1) ≠
    trace 1 (input_tape (TapeStr "1") machineB).
Proof. split_and!; by vm_compute. Qed.

(** * Further properties of the class *)

(** ** Reading back what was written *)

Lemma set_tape_attrs_id self t :
  tape_attrs self = Some t → set_tape_attrs self t = self.
Proof. destruct self. simpl. by intros ->. Qed.

Lemma in_bounds t :
  length_ok t → head_ok t → 0 ≤ _index t < Z.of_nat (length (_tape t)).
Proof. unfold length_ok, head_ok. lia. Qed.

Lemma read_set_tape_attrs self t :
  read (set_tape_attrs self t) = py_getitem (_tape t) (_index t).
Proof. by apply read_eq. Qed.

Lemma write_set_tape_attrs self t symbol :
  write symbol (set_tape_attrs self t) =
    tape' ← py_setitem (_tape t) (_index t) symbol;
    Ok (set_tape_attrs self (mkTape tape' (_tape_length t) (_index t))).
Proof. by rewrite (write_eq (set_tape_attrs self t) t). Qed.

(** X1. With the head on a cell, [write] does not raise and [read]
    then returns the symbol written; the write keeps the length
    counter, the head, the number of cells and every cell other than
    the one under the head, and a second write replaces the first. *)
Theorem write_then_read (self : TuringMachine) (t : Tape) (symbol : Symbol)
    (Hattrs : tape_attrs self = Some t)
    (Hlen : length_ok t) (Hhead : head_ok t) :
  ∃ self' t',
    write symbol self = Ok self' ∧
    tape_attrs self' = Some t' ∧
    read self' = Ok symbol ∧
    _index t' = _index t ∧
    _tape_length t' = _tape_length t ∧
    length (_tape t') = length (_tape t) ∧
    (∀ j, j ≠ Z.to_nat (_index t) → _tape t' !! j = _tape t !! j) ∧
    (∀ symbol', write symbol' self' = write symbol' self).
Proof.
  pose proof (in_bounds t Hlen Hhead) as Hin.
  set (t' := mkTape (<[Z.to_nat (_index t):=symbol]> (_tape t))
                    (_tape_length t) (_index t)).
  assert (Hwrite : ∀ s, write s self =
    Ok (set_tape_attrs self
          (mkTape (<[Z.to_nat (_index t):=s]> (_tape t))
                  (_tape_length t) (_index t)))).
  { intros s. rewrite (write_eq _ _ Hattrs). unfold py_setitem.
    by rewrite py_index_nonneg. }
  exists (set_tape_attrs self t'), t'. split_and!; try done.
  - rewrite read_set_tape_attrs. unfold py_getitem. simpl.
    rewrite py_index_nonneg by (by rewrite length_insert).
    rewrite list_lookup_insert_eq by lia. done.
  - apply length_insert.
  - intros j Hj. simpl. by rewrite list_lookup_insert_ne.
  - intros symbol'. rewrite Hwrite, write_set_tape_attrs.
    unfold py_setitem. simpl.
    rewrite py_index_nonneg by (by rewrite length_insert). simpl.
    by rewrite list_insert_insert_eq.
Qed.

Lemma write_then_read_witness :
  ∃ self', write "x" (input_tape (TapeStr "10") machineB) = Ok self' ∧
           read self' = Ok "x".
Proof.
  destruct (write_then_read (input_tape (TapeStr "10") machineB)
              (mkTape ["1"; "0"] 2 0) "x" eq_refl)
    as (self' & t' & Hwrite & _ & Hread & _).
  { reflexivity. }
  { unfold head_ok. simpl. lia. }
  exists self'. split; [exact Hwrite | exact Hread].
Defined.

(** ** Moving there and back *)

(** X2. With the head on a cell, a move to the right followed by a move
    to the left, or a move to the left followed by a move to the right,
    brings the head back onto a cell holding the symbol it was on, and
    no call raises.  The object is again the one the moves started
    from, unless the first move had to add a cell: then the tape has
    one more [BLANK], at the right end or at the front. *)
Theorem moves_there_and_back (self : TuringMachine) (t : Tape)
    (Hattrs : tape_attrs self = Some t)
    (Hlen : length_ok t) (Hhead : head_ok t) :
  (∃ there back,
     go_right self = Ok there ∧ go_left there = Ok back ∧
     read back = read self ∧
     (_index t ≠ _tape_length t - 1 → back = self) ∧
     (_index t = _tape_length t - 1 →
      back = set_tape_attrs self
               (mkTape (_tape t ++ [BLANK]) (_tape_length t + 1)
                       (_index t)))) ∧
  (∃ there back,
     go_left self = Ok there ∧ go_right there = Ok back ∧
     read back = read self ∧
     (_index t ≠ 0 → back = self) ∧
     (_index t = 0 →
      back = set_tape_attrs self
               (mkTape (BLANK :: _tape t) (_tape_length t + 1) 1))).
Proof.
  pose proof (in_bounds t Hlen Hhead) as Hin.
  unfold length_ok, head_ok in *.
  split.
  - eexists _, _. split; [by apply go_right_eq|].
    split; [by apply go_left_eq|].
    rewrite (read_eq self t Hattrs).
    destruct (decide (_index t = _tape_length t - 1)) as [Hlast|Hlast];
      simpl; rewrite decide_False by lia; simpl.
    + split_and!; [|done|].
      * rewrite read_set_tape_attrs. simpl.
        replace (_index t + 1 - 1) with (_index t) by lia.
        unfold py_getitem.
        rewrite !py_index_nonneg by (rewrite ?length_app; simpl; lia).
        by rewrite lookup_app_l by lia.
      * intros _. unfold set_tape_attrs. simpl. do 3 f_equal. lia.
    + replace (_index t + 1 - 1) with (_index t) by lia.
      assert (set_tape_attrs
                (set_tape_attrs self
                   (mkTape (_tape t) (_tape_length t) (_index t + 1)))
                (mkTape (_tape t) (_tape_length t) (_index t)) = self)
        as ->.
      { destruct self, t. simpl in *. by rewrite Hattrs. }
      by rewrite (read_eq self t Hattrs).
  - eexists _, _. split; [by apply go_left_eq|].
    split; [by apply go_right_eq|].
    rewrite (read_eq self t Hattrs).
    destruct (decide (_index t = 0)) as [Hzero|Hzero];
      simpl; rewrite decide_False by lia; simpl.
    + split_and!; [|done|].
      * rewrite read_set_tape_attrs. simpl. unfold py_getitem.
        rewrite !py_index_nonneg by (simpl; lia).
        rewrite Hzero. done.
      * intros _. unfold set_tape_attrs. simpl. do 3 f_equal. lia.
    + replace (_index t - 1 + 1) with (_index t) by lia.
      assert (set_tape_attrs
                (set_tape_attrs self
                   (mkTape (_tape t) (_tape_length t) (_index t - 1)))
                (mkTape (_tape t) (_tape_length t) (_index t)) = self)
        as ->.
      { destruct self, t. simpl in *. by rewrite Hattrs. }
      by rewrite (read_eq self t Hattrs).
Qed.

Lemma moves_there_and_back_witness :
  ∃ there back,
    go_left (input_tape (TapeStr "10") machineB) = Ok there ∧
    go_right there = Ok back ∧
    read back = read (input_tape (TapeStr "10") machineB).
Proof.
  destruct (moves_there_and_back (input_tape (TapeStr "10") machineB)
              (mkTape ["1"; "0"] 2 0) eq_refl)
    as [_ (there & back & Hleft & Hright & Hread & _)].
  { reflexivity. }
  { unfold head_ok. simpl. lia. }
  exists there, back. split_and!; [exact Hleft | exact Hright | exact Hread].
Defined.

(** ** The two forms of input *)

(** X3. Giving [input_tape] a string is giving it the list of the
    characters of that string: both leave the same object. *)
Theorem input_tape_str_as_list (s : string) (self : TuringMachine) :
  input_tape (TapeStr s) self = input_tape (TapeList (str_chars s)) self.
Proof.
  unfold input_tape. destruct s as [|c s]; [done|]. simpl.
  by rewrite length_str_chars.
Qed.

(** ** Before the first [input_tape] *)

(** X4. On the object a successful construction returns, every method
    that touches the tape raises [AttributeError] until [input_tape]
    has been called: [read], [write], [go_left], [go_right] and
    [next]. *)
Theorem methods_need_input_tape
    (states : gset State) (initial_state : State) (delta : TransitionFunction)
    (accepting_states : gset State) (self : TuringMachine)
    (Hinit : __init__ states initial_state delta accepting_states = Ok self) :
  read self = Raise AttributeError ∧
  (∀ symbol, write symbol self = Raise AttributeError) ∧
  go_left self = Raise AttributeError ∧
  go_right self = Raise AttributeError ∧
  next self = Raise AttributeError.
Proof.
  assert (Hnone : tape_attrs self = None).
  { revert Hinit. unfold __init__. case_decide; [done|].
    destruct (negb _); [done|]. by intros [= <-]. }
  assert (Hget : get_tape_attrs self = Raise AttributeError).
  { unfold get_tape_attrs. by rewrite Hnone. }
  assert (Hread : read self = Raise AttributeError).
  { unfold read. by rewrite Hget. }
  split_and!; [done | | | |].
  - intros symbol. unfold write. by rewrite Hget.
  - unfold go_left. by rewrite Hget.
  - unfold go_right. by rewrite Hget.
  - rewrite next_unfold, Hread. done.
Qed.

Lemma methods_need_input_tape_witness :
  next machineB = Raise AttributeError.
Proof.
  apply (methods_need_input_tape {[q0; q1]} q0 deltaB {[q1]} machineB).
  vm_compute. reflexivity.
Defined.

(** ** What one step does to the tape *)

(** The object a step leaves, case by case. *)
Lemma next_shape self t self' outcome :
  tape_attrs self = Some t → length_ok t → head_ok t →
  next self = Ok (self', outcome) →
  (outcome = Some REJECT ∧ self' = self) ∨
  ∃ symbol new_symbol new_state direction,
    read self = Ok symbol ∧
    lookup_action (_delta self) (_current_state self) symbol =
      Some (new_symbol, new_state, direction) ∧
    outcome ≠ Some REJECT ∧
    self' = set_current_state
              (set_tape_attrs self (tape_after_step t new_symbol direction))
              new_state.
Proof.
  intros Hattrs Hlen Hhead Hnext.
  pose proof (in_bounds t Hlen Hhead) as Hin.
  destruct (next_inv _ _ _ Hnext) as (symbol & Hread & Hbranch).
  destruct (lookup_action _ _ symbol) as [[[new_symbol new_state] d]|]
    eqn:Haction; [|left; by destruct Hbranch].
  right. exists symbol, new_symbol, new_state, d.
  split_and!; [done..| |].
  - destruct Hbranch as [-> _]. by case_decide.
  - destruct (next_Some _ _ _ _ _ _ Hattrs Hread Haction)
      as (k & moved & Hk & Hmove & _ & Hnext').
    rewrite Hnext in Hnext'. injection Hnext' as -> _.
    apply py_index_nonneg_inv in Hk; [subst k|lia].
    unfold tape_after_step. destruct (decide (d = RIGHT)).
    + rewrite (go_right_eq (after_write self t _ new_symbol new_state) _
                 eq_refl) in Hmove.
      injection Hmove as <-. simpl. by case_decide.
    + rewrite (go_left_eq (after_write self t _ new_symbol new_state) _
                 eq_refl) in Hmove.
      injection Hmove as <-. simpl. by case_decide.
Qed.

(** X5. One call of [next] with the head on a cell disturbs no cell but
    the one under the head: every other cell keeps its symbol, at its
    own position or one further when a cell was added in front; the
    tape gains at most one cell, any cell it gains holds [BLANK], none
    is ever removed, and the head ends at most one cell away from
    where it was. *)
Theorem step_keeps_other_cells (self self' : TuringMachine) (t : Tape)
    (outcome : option Result)
    (Hattrs : tape_attrs self = Some t)
    (Hlen : length_ok t) (Hhead : head_ok t)
    (Hnext : next self = Ok (self', outcome)) :
  ∃ (t' : Tape) (shift : nat),
    tape_attrs self' = Some t' ∧
    (shift ≤ 1)%nat ∧
    (length (_tape t) ≤ length (_tape t') ≤ S (length (_tape t)))%nat ∧
    (∀ j, j ≠ Z.to_nat (_index t) → (j < length (_tape t))%nat →
          _tape t' !! (shift + j)%nat = _tape t !! j) ∧
    (∀ j, (j < shift ∨ shift + length (_tape t) ≤ j)%nat →
          (j < length (_tape t'))%nat →
          _tape t' !! j = Some BLANK) ∧
    -1 ≤ _index t' - (_index t + Z.of_nat shift) ≤ 1.
Proof.
  pose proof (in_bounds t Hlen Hhead) as Hin.
  destruct (next_shape _ _ _ _ Hattrs Hlen Hhead Hnext)
    as [[_ ->]|(symbol & new_symbol & new_state & d & _ & _ & _ & ->)].
  { exists t, 0%nat.
    split; [done|]. split; [lia|]. split; [lia|]. split; [done|].
    split; [|lia]. intros j [?|?] ?; lia. }
  unfold tape_after_step. simpl.
  set (written := <[Z.to_nat (_index t):=new_symbol]> (_tape t)).
  assert (Hwlen : length written = length (_tape t))
    by apply length_insert.
  assert (Hother : ∀ j, j ≠ Z.to_nat (_index t) →
            written !! j = _tape t !! j).
  { intros j Hj. unfold written. by rewrite list_lookup_insert_ne. }
  destruct (decide (d = RIGHT)) as [Hd|Hd].
  - destruct (decide (_index t = _tape_length t - 1)) as [Hlast|Hlast].
    + eexists _, 0%nat. split; [done|]. simpl.
      rewrite length_app, Hwlen. simpl.
      split; [lia|]. split; [lia|]. split; [|split; [|lia]].
      * intros j Hj Hlt. rewrite lookup_app_l by lia. by apply Hother.
      * intros j [?|Hge] Hlt; [lia|].
        rewrite lookup_app_r by lia.
        by replace (j - length written)%nat with 0%nat by lia.
    + eexists _, 0%nat. split; [done|]. simpl. rewrite Hwlen.
      split; [lia|]. split; [lia|]. split; [|split; [|lia]].
      * intros j Hj _. by apply Hother.
      * intros j [?|?] ?; lia.
  - destruct (decide (_index t = 0)) as [Hzero|Hzero].
    + eexists _, 1%nat. split; [done|]. simpl. rewrite Hwlen.
      split; [lia|]. split; [lia|]. split; [|split; [|lia]].
      * intros j Hj _. by apply Hother.
      * intros j [Hlt|?] ?; [|lia].
        by replace j with 0%nat by lia.
    + eexists _, 0%nat. split; [done|]. simpl. rewrite Hwlen.
      split; [lia|]. split; [lia|]. split; [|split; [|lia]].
      * intros j Hj _. by apply Hother.
      * intros j [?|?] ?; lia.
Qed.

Lemma step_keeps_other_cells_witness :
  ∃ (t' : Tape) (shift : nat),
    tape_attrs machineB'_2 = Some t' ∧
    (shift ≤ 1)%nat ∧
    _tape t' !! (shift + 0)%nat = Some "1".
Proof.
  destruct (step_keeps_other_cells machineB'_1 machineB'_2
              (mkTape ["1"; BLANK] 2 1) None eq_refl)
    as (t' & shift & Ht' & Hshift & _ & Hkeep & _).
  { reflexivity. }
  { unfold head_ok. simpl. lia. }
  { vm_compute. reflexivity. }
  exists t', shift. split_and!; [exact Ht' | exact Hshift |].
  apply (Hkeep 0%nat); simpl; lia.
Defined.

(** Growth of the tape in one step, with both invariants kept. *)
Lemma next_growth self t self' outcome :
  tape_attrs self = Some t → length_ok t → head_ok t →
  next self = Ok (self', outcome) →
  ∃ t', tape_attrs self' = Some t' ∧ length_ok t' ∧ head_ok t' ∧
        (length (_tape t) ≤ length (_tape t') ≤ S (length (_tape t)))%nat.
Proof.
  intros Hattrs Hlen Hhead Hnext.
  destruct (next_ok _ _ _ _ Hattrs Hlen Hnext) as (t' & Ht' & Hlen' & Hhead').
  exists t'. split; [done|]. split; [done|]. split; [by apply Hhead'|].
  destruct (next_shape _ _ _ _ Hattrs Hlen Hhead Hnext)
    as [[_ ->]|(symbol & new_symbol & new_state & d & _ & _ & _ & ->)].
  - rewrite Hattrs in Ht'. injection Ht' as <-. lia.
  - simpl in Ht'. injection Ht' as <-. unfold tape_after_step.
    repeat case_decide; simpl; rewrite ?length_app, ?length_insert; simpl;
      lia.
Qed.

(** X6. From a tape with the head on a cell, [n] calls of [next] never
    raise, never shorten the tape and lengthen it by at most [n]
    cells; both invariants hold at the end. *)
Theorem tape_growth_bounded (n : nat) (self : TuringMachine) (t : Tape)
    (Hattrs : tape_attrs self = Some t)
    (Hlen : length_ok t) (Hhead : head_ok t) :
  ∃ self' t',
    steps n self = Ok self' ∧
    tape_attrs self' = Some t' ∧
    length_ok t' ∧ head_ok t' ∧
    (length (_tape t) ≤ length (_tape t') ≤ length (_tape t) + n)%nat.
Proof.
  revert self t Hattrs Hlen Hhead.
  induction n as [|n IH]; intros self t Hattrs Hlen Hhead; simpl.
  - exists self, t. split_and!; try done; lia.
  - destruct (next_total self) as (self1 & r & Hnext & _);
      [by exists t|].
    destruct (next_growth _ _ _ _ Hattrs Hlen Hhead Hnext)
      as (t1 & Hattrs1 & Hlen1 & Hhead1 & Hgrow1).
    destruct (IH self1 t1 Hattrs1 Hlen1 Hhead1)
      as (self' & t' & Hsteps & Hattrs' & Hlen' & Hhead' & Hgrow).
    exists self', t'. rewrite Hnext. simpl.
    split_and!; try done; lia.
Qed.

Lemma tape_growth_bounded_witness :
  ∃ self' t',
    steps 5 (input_tape (TapeStr "1") machineB') = Ok self' ∧
    tape_attrs self' = Some t' ∧
    (1 ≤ length (_tape t') ≤ 1 + 5)%nat.
Proof.
  destruct (tape_growth_bounded 5 (input_tape (TapeStr "1") machineB')
              (mkTape ["1"] 1 0) eq_refl)
    as (self' & t' & Hsteps & Ht' & _ & _ & Hgrow).
  { reflexivity. }
  { unfold head_ok. simpl. lia. }
  exists self', t'.
  split; [exact Hsteps|]. split; [exact Ht' | exact Hgrow].
Defined.

(** ** Rejection *)

(** X7. When the symbol under the head can be read, [next] returns
    [REJECT] exactly when the transition function defines no action
    for the current state and that symbol; with an action defined it
    never rejects, whatever the target state. *)
Theorem reject_iff_no_transition (self : TuringMachine) (symbol : Symbol)
    (Hread : read self = Ok symbol) :
  (∃ self', next self = Ok (self', Some REJECT)) ↔
  lookup_action (_delta self) (_current_state self) symbol = None.
Proof.
  split.
  - intros [self' (symbol' & Hread' & Hbranch)%next_inv].
    rewrite Hread in Hread'. injection Hread' as <-.
    destruct (lookup_action _ _ symbol) as [[[new_symbol new_state] d]|];
      [|done].
    destruct Hbranch as [Hr _]. by case_decide.
  - intros Haction. exists self. by apply next_None with symbol.
Qed.

Lemma reject_iff_no_transition_witness :
  (∃ self', next (input_tape (TapeStr "0") machineB) =
              Ok (self', Some REJECT)) ↔
  lookup_action deltaB q0 "0" = None.
Proof.
  apply (reject_iff_no_transition (input_tape (TapeStr "0") machineB) "0").
  reflexivity.
Defined.

(** ** The current state and the declared states *)

Lemma __init___inv states initial_state delta accepting_states self :
  __init__ states initial_state delta accepting_states = Ok self →
  self = mkTM states accepting_states initial_state delta None ∧
  initial_state ∈ states ∧ accepting_states ⊆ states.
Proof.
  unfold __init__. case_decide as Hin; [done|].
  case_bool_decide as Hsub; [|done].
  simpl. intros [= <-]. split_and!; [done| |done].
  by destruct (decide (initial_state ∈ states)).
Qed.

Lemma next_state_closed self self' outcome :
  delta_closed (_states self) (_delta self) →
  _current_state self ∈ _states self →
  next self = Ok (self', outcome) →
  _current_state self' ∈ _states self.
Proof.
  intros Hclosed Hin (symbol & _ & Hbranch)%next_inv.
  destruct (lookup_action _ _ symbol) as [[[new_symbol new_state] d]|]
    eqn:Haction.
  - destruct Hbranch as [_ ->]. by eapply Hclosed.
  - by destruct Hbranch as [_ ->].
Qed.

Lemma steps_state_closed n : ∀ self self',
  delta_closed (_states self) (_delta self) →
  _current_state self ∈ _states self →
  steps n self = Ok self' →
  _current_state self' ∈ _states self.
Proof.
  induction n as [|n IH]; intros self self' Hclosed Hin; simpl.
  - by intros [= <-].
  - destruct (next self) as [[self1 r]|e] eqn:Hnext; [|done]. simpl.
    intros Hsteps.
    destruct (next_frame _ _ _ Hnext) as (Hst & _ & Hdelta).
    rewrite <- Hst. apply IH; [by rewrite Hst, Hdelta| |done].
    rewrite Hst. by eapply next_state_closed.
Qed.

(** X8. The constructor does not look at the transition function.  If
    every target state named in it is one of the declared states, then
    on a constructed machine given any input, [n] calls of [next]
    never raise and the current state is a declared state after
    them. *)
Theorem current_state_stays_declared
    (states : gset State) (initial_state : State) (delta : TransitionFunction)
    (accepting_states : gset State) (fresh : TuringMachine)
    (tape : TapeArg) (n : nat)
    (Hinit : __init__ states initial_state delta accepting_states = Ok fresh)
    (Hclosed : delta_closed states delta) :
  ∃ self, steps n (input_tape tape fresh) = Ok self ∧
          _states self = states ∧
          _current_state self ∈ states.
Proof.
  destruct (__init___inv _ _ _ _ _ Hinit) as (-> & Hin & _).
  destruct (steps_total n
              (input_tape tape
                 (mkTM states accepting_states initial_state delta None)))
    as (self & Hsteps & _); [apply input_tape_wf|].
  exists self. split; [done|].
  destruct (steps_frame _ _ _ Hsteps) as (Hst & _ & _).
  split; [done|].
  by apply (steps_state_closed n
              (input_tape tape
                 (mkTM states accepting_states initial_state delta None))
              self Hclosed Hin Hsteps).
Qed.

Lemma current_state_stays_declared_witness :
  ∃ self, steps 3 (input_tape (TapeStr "1") machineB') = Ok self ∧
          _states self = {[q0; q1]} ∧
          _current_state self ∈ ({[q0; q1]} : gset State).
Proof.
  apply (current_state_stays_declared {[q0; q1]} q0 deltaB' {[q1]}
           machineB' (TapeStr "1") 3).
  - vm_compute. reflexivity.
  - intros state symbol new_symbol new_state direction.
    unfold lookup_action, deltaB'.
    destruct (decide (state = q0)) as [->|Hq0].
    + rewrite lookup_insert_eq. simpl.
      destruct (decide (symbol = "1")) as [->|Hs].
      * rewrite lookup_singleton_eq. intros [= _ <- _]. compute_done.
      * by rewrite lookup_singleton_ne.
    + rewrite lookup_insert_ne by done.
      destruct (decide (state = q1)) as [->|Hq1].
      * rewrite lookup_singleton_eq. simpl.
        destruct (decide (symbol = BLANK)) as [->|Hs].
        -- rewrite lookup_singleton_eq. intros [= _ <- _]. compute_done.
        -- by rewrite lookup_singleton_ne.
      * by rewrite lookup_singleton_ne.
Defined.

(** X9. On a constructed machine given any input and stepped any number
    of times, a call of [next] that returns [ACCEPT] leaves the machine
    in a state that is accepting and, since the constructor checked the
    accepting states, declared: whatever the transition function names
    as targets. *)
Theorem accepted_state_is_declared
    (states : gset State) (initial_state : State) (delta : TransitionFunction)
    (accepting_states : gset State) (fresh self self' : TuringMachine)
    (tape : TapeArg) (n : nat)
    (Hinit : __init__ states initial_state delta accepting_states = Ok fresh)
    (Hsteps : steps n (input_tape tape fresh) = Ok self)
    (Haccept : next self = Ok (self', Some ACCEPT)) :
  _current_state self' ∈ accepting_states ∧
  _current_state self' ∈ states.
Proof.
  destruct (__init___inv _ _ _ _ _ Hinit) as (-> & _ & Hsub).
  destruct (steps_frame _ _ _ Hsteps) as (_ & Hacc & _). simpl in Hacc.
  destruct (next_inv _ _ _ Haccept) as (symbol & _ & Hbranch).
  destruct (lookup_action _ _ symbol) as [[[new_symbol new_state] d]|];
    [|by destruct Hbranch].
  destruct Hbranch as [Hr ->]. case_decide as Hin; [|done].
  rewrite Hacc in Hin. split; [done|]. by apply Hsub.
Qed.

Lemma accepted_state_is_declared_witness :
  _current_state machineB'_1 ∈ ({[q1]} : gset State) ∧
  _current_state machineB'_1 ∈ ({[q0; q1]} : gset State).
Proof.
  apply (accepted_state_is_declared {[q0; q1]} q0 deltaB' {[q1]}
           machineB' (input_tape (TapeStr "1") machineB') machineB'_1
           (TapeStr "1") 0).
  - vm_compute. reflexivity.
  - reflexivity.
  - vm_compute. reflexivity.
Defined.

(** * The driver *)

(** ** The picture of the tape *)

Lemma one_char_inv (c : string) :
  String.length c = 1%nat → ∃ a, c = String a EmptyString.
Proof. destruct c as [|a [|??]]; [done| |done]. eauto. Qed.

Lemma one_char_append a (s : string) : String a EmptyString +:+ s = String a s.
Proof. reflexivity. Qed.

Lemma str_join_one_char_length (l : list string) :
  Forall (λ c, String.length c = 1%nat) l →
  String.length (str_join l) = length l.
Proof.
  induction 1 as [|c l Hc _ IH]; simpl; [done|].
  destruct (one_char_inv c Hc) as [a ->]. rewrite one_char_append. simpl.
  by rewrite IH.
Qed.

Lemma str_take_join (l : list string) :
  Forall (λ c, String.length c = 1%nat) l →
  ∀ k, str_take k (str_join l) = str_join (take k l).
Proof.
  induction 1 as [|c l Hc _ IH]; intros [|k]; simpl; try done.
  destruct (one_char_inv c Hc) as [a ->]. rewrite one_char_append. simpl.
  by rewrite IH.
Qed.

Lemma str_drop_join (l : list string) :
  Forall (λ c, String.length c = 1%nat) l →
  ∀ k, str_drop k (str_join l) = str_join (drop k l).
Proof.
  induction 1 as [|c l Hc _ IH]; intros [|k]; simpl; try done.
  destruct (one_char_inv c Hc) as [a ->]. rewrite one_char_append. simpl.
  by rewrite IH.
Qed.

(** X10. When every cell of the tape is one character and the head is
    on a cell, the picture printed for the tape is exact: the cells
    before the head, the cell under the head between brackets, the
    cells after it, in order. *)
Theorem tape_visual_one_char_cells (tm : TuringMachine) (t : Tape)
    (Hattrs : tape_attrs tm = Some t)
    (Hin : 0 ≤ _index t < Z.of_nat (length (_tape t)))
    (Hcells : Forall (λ c, String.length c = 1%nat) (_tape t)) :
  ∃ cell,
    _tape t !! Z.to_nat (_index t) = Some cell ∧
    tape_visual tm =
      Ok (str_join (take (Z.to_nat (_index t)) (_tape t)) +:+
          "[" +:+ cell +:+ "]" +:+
          str_join (drop (S (Z.to_nat (_index t))) (_tape t))).
Proof.
  destruct (py_getitem_nonneg (_tape t) (_index t) Hin)
    as (cell & Hcell & Hget).
  exists cell. split; [done|].
  unfold tape_visual. rewrite (get_tape_attrs_Some _ _ Hattrs). simpl.
  rewrite decide_True by lia. rewrite Hget. simpl.
  unfold py_str_upto, py_str_from, py_slice_bound.
  rewrite !decide_True by lia.
  rewrite (str_join_one_char_length _ Hcells).
  rewrite (str_take_join _ Hcells), (str_drop_join _ Hcells).
  replace (Z.to_nat (_index t) `min` length (_tape t))%nat
    with (Z.to_nat (_index t)) by lia.
  replace (Z.to_nat (_index t + 1) `min` length (_tape t))%nat
    with (S (Z.to_nat (_index t))) by lia.
  done.
Qed.

Lemma tape_visual_one_char_cells_witness :
  tape_visual (mkTM {[q0]} ∅ q0 ∅ (Some (mkTape ["a"; "b"; "c"] 3 1))) =
    Ok "a[b]c".
Proof.
  destruct (tape_visual_one_char_cells
              (mkTM {[q0]} ∅ q0 ∅ (Some (mkTape ["a"; "b"; "c"] 3 1)))
              (mkTape ["a"; "b"; "c"] 3 1) eq_refl)
    as (cell & Hcell & Hvisual).
  { simpl. lia. }
  { repeat constructor. }
  injection Hcell as <-. exact Hvisual.
Defined.

(** X11. The picture is not exact once the tape holds a [BLANK], which
    is the empty string and so vanishes from the joined cells: after
    [go_left] has added a cell in front of a tape [c :: rest] whose
    first cell is one character, the tape is [BLANK :: c :: rest] with
    the head on the [BLANK], but the picture is [[]] followed by the
    cells of [rest] only: the cell [c] is not shown. *)
Theorem tape_visual_after_left_growth (tm : TuringMachine) (t : Tape)
    (c : Symbol) (rest : list Symbol)
    (Hattrs : tape_attrs tm = Some t)
    (Htape : _tape t = c :: rest)
    (Hhead : _index t = 0)
    (Hc : String.length c = 1%nat) :
  ∃ grown t',
    go_left tm = Ok grown ∧
    tape_attrs grown = Some t' ∧
    _tape t' = BLANK :: c :: rest ∧
    _index t' = 0 ∧
    tape_visual grown = Ok ("[]" +:+ str_join rest).
Proof.
  eexists _, _. split; [by apply go_left_eq|].
  rewrite decide_True by done. simpl. rewrite Htape, Hhead.
  split_and!; [done..|].
  unfold tape_visual. simpl.
  destruct (one_char_inv c Hc) as [a ->].
  change (str_join (BLANK :: String a EmptyString :: rest))
    with (String a (str_join rest)).
  unfold py_str_upto, py_str_from, py_slice_bound. simpl.
  reflexivity.
Qed.

Lemma tape_visual_after_left_growth_witness :
  ∃ grown,
    go_left (input_tape (TapeStr "10") machineB) = Ok grown ∧
    tape_visual grown = Ok "[]0".
Proof.
  destruct (tape_visual_after_left_growth
              (input_tape (TapeStr "10") machineB) (mkTape ["1"; "0"] 2 0)
              "1" ["0"] eq_refl eq_refl eq_refl eq_refl)
    as (grown & t' & Hgo & _ & _ & _ & Hvisual).
  exists grown. split; [exact Hgo | exact Hvisual].
Defined.

(** ** The loop *)


(** An outcome that is neither [ACCEPT] nor [REJECT] is [None]. *)
Lemma outcome_None (outcome : option Result) :
  outcome ≠ Some ACCEPT → outcome ≠ Some REJECT → outcome = None.
Proof. by destruct outcome as [[]|]. Qed.


(** What a report says about the calls of [next] the loop made. *)
Lemma main_loop_trace fuel : ∀ max_steps steps tm rep,
  main_loop fuel max_steps steps tm = Ok (Some rep) →
  steps ≤ max_steps →
  ∃ tr outcome,
    trace (S (length tr)) tm = Ok (tr ++ [(final rep, outcome)]) ∧
    Forall (λ p, p.2 = None) tr ∧
    steps_taken rep = steps + Z.of_nat (S (length tr)) ∧
    steps_taken rep ≤ max_steps + 1 ∧
    length (printed rep) = S (length tr) ∧
    match verdict rep with
    | InputAccepted => outcome = Some ACCEPT
    | InputRejected => outcome = Some REJECT
    | StepLimitExceeded => outcome = None ∧ steps_taken rep = max_steps + 1
    end.
Proof.
  induction fuel as [|fuel IH]; intros max_steps steps tm rep; [done|].
  simpl. destruct (tape_visual tm) as [visual|e]; [|done]. simpl.
  destruct (next tm) as [[tm' outcome]|e] eqn:Hnext; [|done]. simpl.
  destruct (decide (outcome = Some ACCEPT)) as [Hacc|Hacc];
    [|destruct (decide (outcome = Some REJECT)) as [Hrej|Hrej];
      [|destruct (decide (steps + 1 > max_steps)) as [Hlim|Hlim]]].
  - intros [= <-] Hle. exists [], outcome. simpl.
    split_and!; try done; lia.
  - intros [= <-] Hle. exists [], outcome. simpl.
    split_and!; try done; lia.
  - intros [= <-] Hle. exists [], outcome. simpl.
    pose proof (outcome_None _ Hacc Hrej).
    split_and!; try done; lia.
  - destruct (main_loop fuel max_steps (steps + 1) tm') as [[rest|]|e]
      eqn:Hrest; [|done..].
    simpl. intros [= <-] Hle.
    destruct (IH _ _ _ _ Hrest) as (tr & last & Htr & Hnone & Hn & Hb & Hl & Hv);
      [lia|].
    exists ((tm', outcome) :: tr), last.
    change (trace (S (length ((tm', outcome) :: tr))) tm)
      with ('(self', r) ← next tm;
            rest ← trace (S (length tr)) self';
            Ok ((self', r) :: rest)).
    simpl in *. rewrite Htr. simpl.
    split_and!; try done; try lia.
    constructor; [|done]. by apply outcome_None.
Qed.


(** The lines printed show the machine before each step. *)
Lemma main_loop_lines fuel : ∀ max_steps count tm rep j line,
  main_loop fuel max_steps count tm = Ok (Some rep) →
  printed rep !! j = Some line →
  ∃ before visual,
    steps j tm = Ok before ∧
    tape_visual before = Ok visual ∧
    line = state_line (_current_state before) visual.
Proof.
  induction fuel as [|fuel IH]; intros max_steps count tm rep j line;
    [done|].
  simpl. destruct (tape_visual tm) as [visual|e] eqn:Hvisual; [|done].
  simpl. destruct (next tm) as [[tm' outcome]|e] eqn:Hnext; [|done].
  simpl.
  assert (Hlast : ∀ v n,
    (mkReport [state_line (_current_state tm) visual] v tm' n).(printed)
      !! j = Some line →
    ∃ before visual0,
      steps j tm = Ok before ∧
      tape_visual before = Ok visual0 ∧
      line = state_line (_current_state before) visual0).
  { intros v n. simpl. destruct j as [|j]; [|done].
    intros [= <-]. by exists tm, visual. }
  repeat case_decide; try (intros [= <-]; by apply Hlast).
  destruct (main_loop fuel max_steps (count + 1) tm') as [[rest|]|e]
    eqn:Hrest; [|done..].
  simpl. intros [= <-]. simpl. destruct j as [|j]; simpl.
  - intros [= <-]. by exists tm, visual.
  - intros Hline. rewrite Hnext. simpl. by eapply IH.
Qed.

(** What the final message says about the machine. *)
Lemma main_loop_sound fuel : ∀ max_steps steps tm rep,
  main_loop fuel max_steps steps tm = Ok (Some rep) →
  _delta (final rep) = _delta tm ∧
  _accepting (final rep) = _accepting tm ∧
  match verdict rep with
  | InputAccepted => _current_state (final rep) ∈ _accepting tm
  | InputRejected =>
      ∃ symbol, read (final rep) = Ok symbol ∧
                lookup_action (_delta tm) (_current_state (final rep)) symbol
                  = None
  | StepLimitExceeded => True
  end.
Proof.
  induction fuel as [|fuel IH]; intros max_steps steps tm rep; [done|].
  simpl. destruct (tape_visual tm) as [visual|e]; [|done]. simpl.
  destruct (next tm) as [[tm' outcome]|e] eqn:Hnext; [|done]. simpl.
  destruct (next_frame _ _ _ Hnext) as (_ & Hacc & Hdelta).
  destruct (next_inv _ _ _ Hnext) as (symbol & Hread & Hbranch).
  destruct (decide (outcome = Some ACCEPT)) as [->|Hnacc];
    [|destruct (decide (outcome = Some REJECT)) as [->|Hnrej];
      [|destruct (decide (steps + 1 > max_steps)) as [Hlim|Hlim]]].
  - intros [= <-]. simpl. split_and!; [done..|].
    destruct (lookup_action _ _ symbol) as [[[new_symbol new_state] d]|];
      [|by destruct Hbranch].
    destruct Hbranch as [Hr ->]. by case_decide.
  - intros [= <-]. simpl. split_and!; [done..|].
    destruct (lookup_action _ _ symbol) as [[[new_symbol new_state] d]|]
      eqn:Haction.
    + destruct Hbranch as [Hr _]. by case_decide.
    + destruct Hbranch as [_ ->]. eauto.
  - by intros [= <-].
  - destruct (main_loop fuel max_steps (steps + 1) tm') as [[rest|]|e]
      eqn:Hrest; [|done..].
    simpl. intros [= <-]. simpl.
    destruct (IH _ _ _ _ Hrest) as (Hd & Ha & Hv).
    rewrite Hd, Ha, Hdelta, Hacc. split_and!; [done..|].
    by rewrite Hdelta, Hacc in Hv.
Qed.

Lemma max_steps_for_ge tape_input : 10000 ≤ max_steps_for tape_input.
Proof. unfold max_steps_for. lia. Qed.

Lemma main_run_Ok states initial_state delta accepting_states tape_input r :
  main_run states initial_state delta accepting_states tape_input = Ok r →
  initial_state ∈ states ∧ accepting_states ⊆ states ∧
  main_loop (S (Z.to_nat (max_steps_for tape_input)))
    (max_steps_for tape_input) 0
    (input_tape (TapeList (str_chars tape_input))
       (mkTM states accepting_states initial_state delta None)) = Ok r.
Proof.
  unfold main_run.
  destruct (__init__ states initial_state delta accepting_states)
    as [fresh|e] eqn:Hinit; [|done].
  destruct (__init___inv _ _ _ _ _ Hinit) as (-> & Hin & Hsub). by simpl.
Qed.



(** X13. The driver stops at the first terminal outcome and at no other
    point short of the limit.  When it ends, [next] has been called
    [steps_taken] times on the machine given the input line; every
    call but the last returned [None]; the last call returned [ACCEPT]
    for the message "accepted", [REJECT] for "rejected", and for the
    message "step limit" it returned [None] and was call number
    [max_steps + 1]: the limit is reported after [max_steps + 1]
    steps, not after [max_steps]. *)
Theorem main_run_verdict
    (states : gset State) (initial_state : State) (delta : TransitionFunction)
    (accepting_states : gset State) (tape_input : string) (rep : Report)
    (Hrun : main_run states initial_state delta accepting_states tape_input
            = Ok (Some rep)) :
  ∃ tr outcome,
    trace (S (length tr))
      (input_tape (TapeList (str_chars tape_input))
         (mkTM states accepting_states initial_state delta None))
      = Ok (tr ++ [(final rep, outcome)]) ∧
    Forall (λ p, p.2 = None) tr ∧
    steps_taken rep = Z.of_nat (S (length tr)) ∧
    match verdict rep with
    | InputAccepted => outcome = Some ACCEPT
    | InputRejected => outcome = Some REJECT
    | StepLimitExceeded =>
        outcome = None ∧ steps_taken rep = max_steps_for tape_input + 1
    end.
Proof.
  destruct (main_run_Ok _ _ _ _ _ _ Hrun) as (_ & _ & Hloop).
  pose proof (max_steps_for_ge tape_input) as Hmax.
  destruct (main_loop_trace _ _ _ _ _ Hloop)
    as (tr & outcome & Htr & Hnone & Hn & _ & _ & Hv); [lia|].
  exists tr, outcome. split_and!; [done|done|lia|done].
Qed.

Lemma main_run_verdict_witness :
  ∃ tr outcome,
    trace (S (length tr)) (input_tape (TapeList (str_chars "1")) machineB)
      = Ok (tr ++ [(machineB_1, outcome)]) ∧
    Forall (λ p, p.2 = None) tr ∧
    1 = Z.of_nat (S (length tr)) ∧
    outcome = Some ACCEPT.
Proof.
  apply (main_run_verdict {[q0; q1]} q0 deltaB {[q1]} "1" reportB).
  vm_compute. reflexivity.
Defined.

(** X14. The state lines the driver prints are, in order, the pictures
    of the machine before each call of [next]: line number [j]
    (counting from 0) shows the current state and the tape of the
    machine after [j] steps. *)
Theorem main_run_lines
    (states : gset State) (initial_state : State) (delta : TransitionFunction)
    (accepting_states : gset State) (tape_input : string) (rep : Report)
    (j : nat) (line : string)
    (Hrun : main_run states initial_state delta accepting_states tape_input
            = Ok (Some rep))
    (Hline : printed rep !! j = Some line) :
  ∃ before visual,
    steps j (input_tape (TapeList (str_chars tape_input))
               (mkTM states accepting_states initial_state delta None))
      = Ok before ∧
    tape_visual before = Ok visual ∧
    line = state_line (_current_state before) visual.
Proof.
  destruct (main_run_Ok _ _ _ _ _ _ Hrun) as (_ & _ & Hloop).
  by eapply main_loop_lines.
Qed.

Lemma main_run_lines_witness :
  ∃ before visual,
    steps 0 (input_tape (TapeList (str_chars "1")) machineB) = Ok before ∧
    tape_visual before = Ok visual ∧
    "State: q0 | Tape: [1]" = state_line (_current_state before) visual.
Proof.
  apply (main_run_lines {[q0; q1]} q0 deltaB {[q1]} "1" reportB 0
           "State: q0 | Tape: [1]").
  - vm_compute. reflexivity.
  - reflexivity.
Defined.

(** X15. The final message is sound.  When the driver reports that the
    input is accepted, the machine it leaves is in an accepting state;
    when it reports that the input is rejected, the transition function
    defines no action for the state of the machine it leaves and the
    symbol under its head. *)
Theorem main_run_sound
    (states : gset State) (initial_state : State) (delta : TransitionFunction)
    (accepting_states : gset State) (tape_input : string) (rep : Report)
    (Hrun : main_run states initial_state delta accepting_states tape_input
            = Ok (Some rep)) :
  (verdict rep = InputAccepted →
   _current_state (final rep) ∈ accepting_states) ∧
  (verdict rep = InputRejected →
   ∃ symbol,
     read (final rep) = Ok symbol ∧
     lookup_action delta (_current_state (final rep)) symbol = None).
Proof.
  destruct (main_run_Ok _ _ _ _ _ _ Hrun) as (_ & _ & Hloop).
  destruct (main_loop_sound _ _ _ _ _ Hloop) as (_ & _ & Hv).
  split; intros Hverdict; by rewrite Hverdict in Hv.
Qed.

Lemma main_run_sound_witness :
  _current_state machineB_1 ∈ ({[q1]} : gset State).
Proof.
  apply (main_run_sound {[q0; q1]} q0 deltaB {[q1]} "1" reportB).
  - vm_compute. reflexivity.
  - reflexivity.
Defined.

(** ** Reading the transition function *)

Lemma map_fold_insert_fmap {A B} (f : A → B) (m : gmap string A) :
  map_fold (λ k x acc, <[k:=f x]> acc) ∅ m = f <$> m.
Proof.
  apply (map_fold_weak_ind (λ acc m, acc = f <$> m)).
  - by rewrite fmap_empty.
  - intros k x m' acc _ ->. by rewrite fmap_insert.
Qed.

Lemma parse_delta_fmap
    (spec_delta : gmap string (gmap string (string * string * string))) :
  parse_delta spec_delta =
    (λ transitions : gmap string (string * string * string),
       parse_action <$> transitions) <$> spec_delta.
Proof.
  unfold parse_delta.
  apply (map_fold_weak_ind
           (λ acc (m : gmap string (gmap string (string * string * string))),
              acc = (λ transitions : gmap string (string * string * string),
                       parse_action <$> transitions) <$> m)).
  - by rewrite fmap_empty.
  - intros state transitions m acc _ ->. rewrite fmap_insert. f_equal.
    apply map_fold_insert_fmap.
Qed.

(** X16. The transition function the driver builds has an action for a
    state and a symbol exactly where the specification has one, with
    the same symbol to write and the same target state; the head moves
    left when the direction in the specification is the string "L" and
    right for every other string. *)
Theorem parse_delta_lookup
    (spec_delta : gmap string (gmap string (string * string * string)))
    (state : State) (symbol : Symbol) :
  lookup_action (parse_delta spec_delta) state symbol =
    match spec_delta !! state ≫= (.!! symbol) with
    | Some (new_symbol, new_state, direction) =>
        Some (new_symbol, new_state,
              if decide (direction = "L") then LEFT else RIGHT)
    | None => None
    end.
Proof.
  unfold lookup_action. rewrite parse_delta_fmap, lookup_fmap.
  destruct (spec_delta !! state) as [transitions|]; simpl; [|done].
  rewrite lookup_fmap.
  destruct (transitions !! symbol) as [[[new_symbol new_state] d]|];
    simpl; [|done].
  unfold LEFT, RIGHT. by case_bool_decide; case_decide.
Qed.

(** ** The first line *)




